(** * A shallow embedding of the TriggerMesh broker core

    Two source files are embedded:
    - the subscription manager (package [subscriptions]): [New],
      [UpdateFromConfig], [DispatchCloudEvent], [dispatchCloudEventToTarget],
      [send], [materializeFiltersList], [materializeSubscriptionsAPIFilter];
    - the broker supervisor (pkg/broker/broker.go): [Instance.Start].

    Go maps are association lists: the order of the list is the order in
    which one [range] loop visits the entries, so that a statement quantified
    over every list covers every iteration order Go may pick.  Pointers are
    [option]s ([None] is nil).  Calls into collaborators (backend, CloudEvents
    client, logger, reply handler) are recorded in a trace. *)

From Stdlib Require Import String List ZArith Bool Lia.
Import ListNotations.
Local Open Scope string_scope.
Set Warnings "-register-all".

(** ** Configuration data (pkg/config and Knative's eventing/v1) *)

Module config.

(** eventingv1.SubscriptionsAPIFilter: a struct, not a sum; any number of
    its fields can be set at once.  The three maps are kept as association
    lists. *)
Inductive SubscriptionsAPIFilter : Type :=
  mkSubscriptionsAPIFilter
    (All Any : list SubscriptionsAPIFilter)
    (Not : option SubscriptionsAPIFilter)
    (Exact Prefix Suffix : list (string * string))
    (CESQL : string).

(** The zero value [SubscriptionsAPIFilter{}]. *)
Definition emptyFilter : SubscriptionsAPIFilter :=
  mkSubscriptionsAPIFilter [] [] None [] [] [] "".

(** config.BackoffPolicyType is a string type; the two constants the
    dispatcher switches on. *)
Definition BackoffPolicyType := string.
Definition BackoffPolicyLinear : BackoffPolicyType := "linear".
Definition BackoffPolicyExponential : BackoffPolicyType := "exponential".

(** Every field is a pointer in the source.  (Slices and maps are lists
    here, so a nil and an empty one are the same value; reflect.DeepEqual,
    which tells them apart, is a parameter of the manager's world.) *)
Record DeliveryOptions : Type := mkDeliveryOptions {
  Retry : option Z;                       (* *int32 *)
  BackoffPolicy : option BackoffPolicyType;
  BackoffDelay : option string;
  DeadLetterURL : option string
}.

Record Target : Type := mkTarget {
  URL : string;
  Target_DeliveryOptions : option DeliveryOptions
}.

Record Trigger : Type := mkTrigger {
  Filters : list SubscriptionsAPIFilter;
  Trigger_Target : Target
}.

(** config.Config, restricted to the field the manager reads. *)
Record Config : Type := mkConfig {
  Triggers : list (string * Trigger)
}.

End config.

(** ** Materialised filters (Knative's eventfilter/subscriptionsapi) *)

Module eventfilter.

Inductive FilterResult : Type := PassFilter | FailFilter | NoFilter.

(** The values behind the [eventfilter.Filter] interface.  An interface
    value that may be nil is an [option Filter]; a not-filter stores the
    interface value it was given, nil included. *)
Inductive Filter : Type :=
| exactFilter (attribute value : string)
| prefixFilter (attribute prefix : string)
| suffixFilter (attribute suffix : string)
| allFilter (filters : list Filter)
| anyFilter (filters : list Filter)
| notFilter (filter : option Filter)
| ceSQLFilter (expression : string).

End eventfilter.

(** A CloudEvent, by the attributes the manager reads. *)
Record Event : Type := mkEvent {
  ev_ID : string;
  ev_Source : string;
  ev_Type : string
}.

Module subscriptionsapi.
Import eventfilter.

(** What the library decides and the manager cannot see: which arguments
    the leaf constructors reject, and how a materialised filter evaluates
    on an event. *)
Record Library : Type := mkLibrary {
  exactValid : string -> string -> bool;
  prefixValid : string -> string -> bool;
  suffixValid : string -> string -> bool;
  cesqlValid : string -> bool;
  Filter_eval : Filter -> Event -> FilterResult
}.

(** Constructors returning [(Filter, error)]: [None] is the error. *)
Definition NewExactFilter (L : Library) (attribute value : string) : option Filter :=
  if exactValid L attribute value then Some (exactFilter attribute value) else None.
Definition NewPrefixFilter (L : Library) (attribute prefix : string) : option Filter :=
  if prefixValid L attribute prefix then Some (prefixFilter attribute prefix) else None.
Definition NewSuffixFilter (L : Library) (attribute suffix : string) : option Filter :=
  if suffixValid L attribute suffix then Some (suffixFilter attribute suffix) else None.
Definition NewCESQLFilter (L : Library) (expression : string) : option Filter :=
  if cesqlValid L expression then Some (ceSQLFilter expression) else None.

(** Constructors with a single result: they wrap what they are given. *)
Definition NewAllFilter (filters : list Filter) : Filter := allFilter filters.
Definition NewAnyFilter (filters : list Filter) : Filter := anyFilter filters.
Definition NewNotFilter (f : option Filter) : Filter := notFilter f.

End subscriptionsapi.

(** ** Filter materialisation (manager, "Copied from Knative Eventing") *)

Module materialize.
Import config eventfilter subscriptionsapi.

(** The [for attribute, value := range m] loops of the Exact, Prefix and
    Suffix cases: each entry overwrites [materializedFilter]; the first
    constructor error returns nil from the whole function. *)
Fixpoint rangeLeaf (new : string -> string -> option Filter)
         (entries : list (string * string)) (materializedFilter : option Filter)
  : option Filter :=
  match entries with
  | [] => materializedFilter
  | (attribute, value) :: rest =>
      match new attribute value with
      | None => None
      | Some f => rangeLeaf new rest (Some f)
      end
  end.

(** [materializeSubscriptionsAPIFilter], by the value it returns: the
    [switch] takes the first case whose guard holds; with no case taken
    the zero value (nil) is returned.  The inner [fix] is the loop of
    [materializeFiltersList], inlined for the recursion through the lists.
    The lines the function writes to the logger are kept by
    [subscriptions.materializeSubscriptionsAPIFilter_logged], whose value
    is this one. *)
Fixpoint materializeSubscriptionsAPIFilter (L : Library)
         (filter : SubscriptionsAPIFilter) {struct filter} : option Filter :=
  match filter with
  | mkSubscriptionsAPIFilter All Any Not Exact Prefix Suffix CESQL =>
      let loop :=
        fix loop (filters : list SubscriptionsAPIFilter)
                 (materializedFilters : list Filter) {struct filters} : list Filter :=
          match filters with
          | [] => materializedFilters
          | f :: rest =>
              match materializeSubscriptionsAPIFilter L f with
              | None => loop rest materializedFilters
              | Some f' => loop rest (materializedFilters ++ [f'])%list
              end
          end in
      if (0 <? List.length Exact)%nat then rangeLeaf (NewExactFilter L) Exact None
      else if (0 <? List.length Prefix)%nat then rangeLeaf (NewPrefixFilter L) Prefix None
      else if (0 <? List.length Suffix)%nat then rangeLeaf (NewSuffixFilter L) Suffix None
      else if (0 <? List.length All)%nat then Some (NewAllFilter (loop All []))
      else if (0 <? List.length Any)%nat then Some (NewAnyFilter (loop Any []))
      else match Not with
           | Some child =>
               Some (NewNotFilter (materializeSubscriptionsAPIFilter L child))
           | None =>
               if String.eqb CESQL "" then None
               else NewCESQLFilter L CESQL
           end
  end.

(** The loop of [materializeFiltersList], with its accumulator, by the
    value it returns (with its log lines:
    [subscriptions.materializeFiltersList_logged]). *)
Fixpoint materializeLoop (L : Library) (filters : list SubscriptionsAPIFilter)
         (materializedFilters : list Filter) : list Filter :=
  match filters with
  | [] => materializedFilters
  | f :: rest =>
      match materializeSubscriptionsAPIFilter L f with
      | None => materializeLoop L rest materializedFilters   (* warn, continue *)
      | Some f' => materializeLoop L rest (materializedFilters ++ [f'])%list
      end
  end.

Definition materializeFiltersList (L : Library)
           (filters : list SubscriptionsAPIFilter) : list Filter :=
  materializeLoop L filters [].

End materialize.

(** ** The CloudEvents SDK as the manager uses it *)

Module cloudevents.

Inductive BackoffStrategy : Type :=
  BackoffStrategyConstant | BackoffStrategyLinear | BackoffStrategyExponential.

Record RetryParams : Type := mkRetryParams {
  Strategy : BackoffStrategy;
  Period : Z;          (* time.Duration *)
  MaxTries : Z         (* int *)
}.

(** context.Context, by the two values the manager attaches to it. *)
Record Context : Type := mkContext {
  ctxTarget : option string;
  ctxRetries : option RetryParams
}.

(** context.Background() (the logger attached by logging.WithLogger is not
    a value the delivery client reads). *)
Definition Background : Context := mkContext None None.

Definition ContextWithTarget (ctx : Context) (target : string) : Context :=
  mkContext (Some target) (ctxRetries ctx).

Definition ContextWithRetriesConstantBackoff (ctx : Context) (delay maxTries : Z) : Context :=
  mkContext (ctxTarget ctx) (Some (mkRetryParams BackoffStrategyConstant delay maxTries)).
Definition ContextWithRetriesLinearBackoff (ctx : Context) (delay maxTries : Z) : Context :=
  mkContext (ctxTarget ctx) (Some (mkRetryParams BackoffStrategyLinear delay maxTries)).
Definition ContextWithRetriesExponentialBackoff (ctx : Context) (delay maxTries : Z) : Context :=
  mkContext (ctxTarget ctx) (Some (mkRetryParams BackoffStrategyExponential delay maxTries)).

(** cloudevents.TargetFromContext: the URL attached to the context, as a
    [*url.URL]; nil when no target is attached, when it is the empty
    string or when url.Parse rejects it ([parse] is url.Parse succeeding). *)
Definition TargetFromContext (parse : string -> bool) (ctx : Context) : option string :=
  match ctxTarget ctx with
  | Some target =>
      if String.eqb target "" then None
      else if parse target then Some target
      else None
  | None => None
  end.

(** A protocol.Result, by what IsACK, IsUndelivered and IsNACK answer on
    it, which is all the manager asks of it. *)
Record Result : Type := mkResult {
  IsACK : bool;
  IsUndelivered : bool;
  IsNACK : bool
}.

End cloudevents.

(** ** Effects: a trace of calls, and panics *)

Module effects.

Inductive Panic : Type :=
| NilPointerDereference (what : string).

Inductive Outcome (A : Type) : Type :=
| Returned (a : A)
| Panicked (p : Panic).
Arguments Returned {A} a.
Arguments Panicked {A} p.

(** A computation reads and extends the history of calls made so far (in
    the order they were made) and returns or panics. *)
Definition M (C A : Type) : Type := list C -> list C * Outcome A.

Definition ret {C A} (a : A) : M C A := fun h => (h, Returned a).

Definition bind {C A B} (c : M C A) (k : A -> M C B) : M C B :=
  fun h =>
    match c h with
    | (h', Returned a) => k a h'
    | (h', Panicked p) => (h', Panicked p)
    end.

Definition call {C} (c : C) : M C unit := fun h => ((h ++ [c])%list, Returned tt).

(** Several calls in a row. *)
Definition calls {C} (cs : list C) : M C unit := fun h => ((h ++ cs)%list, Returned tt).

Definition history {C} : M C (list C) := fun h => (h, Returned h).

Definition panic {C A} (p : Panic) : M C A := fun h => (h, Panicked p).

(** Running from an empty history. *)
Definition run {C A} (c : M C A) : list C * Outcome A := c [].
Definition trace {C A} (c : M C A) : list C := fst (run c).
Definition outcome {C A} (c : M C A) : Outcome A := snd (run c).

Declare Scope go_scope.
Delimit Scope go_scope with go.
Notation "x <- c ;; k" := (bind c (fun x => k))
  (at level 61, c at next level, right associativity) : go_scope.
Notation "c ;; k" := (bind c (fun _ => k))
  (at level 61, right associativity) : go_scope.

End effects.

(** ** The subscription manager *)

Module subscriptions.
Import config eventfilter subscriptionsapi materialize cloudevents effects.
Local Open Scope go_scope.

(** Calls the manager makes into its collaborators.  A log call keeps the
    constant part of its message and whether it carries [lost: true]. *)
Inductive Call : Type :=
| ceClient_Request (ctx : Context) (event : Event)
| ceHandler_call (ctx : Context) (reply : Event)
| backend_Subscribe (name : string)
| backend_Unsubscribe (name : string)
| logger_Error (msg : string) (lost : bool)
| logger_Info (msg : string)
| logger_Debug (msg : string)
| logger_Warn (msg : string).

(** [type CloudEventHandler func(context.Context, *cloudevents.Event) error];
    the handler may answer differently as the history grows.  [None] is a
    nil error. *)
Definition CloudEventHandler : Type :=
  list Call -> Context -> Event -> option string.

(** Modelled from the spec: the [subscriber] struct, declared in a file
    that is not among the sources.  The manager itself sets [name] and
    reads [trigger]; the compiled fields are those of the spec's data
    model (filter tree and parsed backoff). *)
Record subscriber : Type := mkSubscriber {
  name : string;
  trigger : Trigger;
  filter : list Filter;
  backoff : Z
}.

(** The collaborators whose code the manager calls. *)
Record World : Type := mkWorld {
  library : Library;
  (** period.Parse followed by DurationApprox: the duration of the period
      returned, and the error ([None] is nil). *)
  period_Parse : string -> Z * option string;
  (** ceClient.Request: the reply event (nil is [None]) and the result,
      given the calls made before this one. *)
  ceClient_respond : list Call -> Context -> Event -> option Event * Result;
  (** subscriber.updateTrigger mutates the subscriber through its pointer
      and returns an error: the subscriber after the call, and the error. *)
  updateTrigger : subscriber -> Trigger -> subscriber * option string;
  (** reflect.DeepEqual on two [config.Trigger] values. *)
  DeepEqual : Trigger -> Trigger -> bool;
  (** url.Parse succeeds on the string. *)
  url_Parse : string -> bool;
  (** The client built by [New] has no target of its own: without a target
      in the context its request fails, so a result that is an ACK comes
      from a context whose target is there. *)
  ceClient_ACK_has_target :
    forall h ctx event,
      IsACK (snd (ceClient_respond h ctx event)) = true ->
      TargetFromContext url_Parse ctx <> None
}.

Record Manager : Type := mkManager {
  ceHandler : option CloudEventHandler;
  triggers : list (string * Trigger);
  subscribers : list (string * subscriber);
  ctx : Context
}.

(** *** Go map operations on association lists *)

Fixpoint lookup {V} (k : string) (m : list (string * V)) : option V :=
  match m with
  | [] => None
  | (k', v) :: rest => if String.eqb k k' then Some v else lookup k rest
  end.

Fixpoint delete {V} (k : string) (m : list (string * V)) : list (string * V) :=
  match m with
  | [] => []
  | (k', v) :: rest =>
      if String.eqb k k' then delete k rest else (k', v) :: delete k rest
  end.

(** [m[k] = v]: overwrite the entry, or add one. *)
Fixpoint store {V} (k : string) (v : V) (m : list (string * V)) : list (string * V) :=
  match m with
  | [] => [(k, v)]
  | (k', v') :: rest =>
      if String.eqb k k' then (k, v) :: rest else (k', v') :: store k v rest
  end.

(** *** New *)

(** [New]: the two SDK constructors may fail; [triggers] is not set by
    the struct literal, so it is the nil map. *)
Definition New (newHTTP_err newClient_err : option string) : Manager + string :=
  match newHTTP_err with
  | Some err => inr ("could not create CloudEvents HTTP protocol: " ++ err)
  | None =>
      match newClient_err with
      | Some err => inr ("could not create CloudEvents HTTP client: " ++ err)
      | None =>
          inl {| ceHandler := None;
                 triggers := [];
                 subscribers := [];
                 ctx := Background |}
      end
  end.

Definition RegisterCloudEventHandler (m : Manager) (h : CloudEventHandler) : Manager :=
  {| ceHandler := Some h;
     triggers := triggers m;
     subscribers := subscribers m;
     ctx := ctx m |}.

Definition with_subscribers (m : Manager) (subs : list (string * subscriber)) : Manager :=
  {| ceHandler := ceHandler m;
     triggers := triggers m;
     subscribers := subs;
     ctx := ctx m |}.

(** *** UpdateFromConfig *)

(** Modelled from the spec: [subscriber.unsubscribe], declared in a file
    that is not among the sources; the removal pass "calls
    backend.Unsubscribe(name)". *)
Definition unsubscribe (sub : subscriber) : M Call unit :=
  call (backend_Unsubscribe (name sub)).

(** First loop: [entries] are the entries still to visit, [subs] the map
    as deleted from so far. *)
Fixpoint removalPass (c : Config) (entries subs : list (string * subscriber))
  : M Call (list (string * subscriber)) :=
  match entries with
  | [] => ret subs
  | (k, sub) :: rest =>
      match lookup k (Triggers c) with
      | Some _ => removalPass c rest subs
      | None =>
          unsubscribe sub ;;
          removalPass c rest (delete k subs)
      end
  end.

(** The subscriber built by the struct literal of the second loop: only
    [name] is set among the modelled fields, the rest are zero values. *)
Definition newSubscriber (n : string) : subscriber :=
  {| name := n;
     trigger := mkTrigger [] (mkTarget "" None);
     filter := [];
     backoff := 0 |}.

(** Second loop.  Both error branches [return] from UpdateFromConfig: the
    entries still to visit are dropped. *)
Fixpoint updatePass (W : World) (entries : list (string * Trigger))
         (subs : list (string * subscriber)) : M Call (list (string * subscriber)) :=
  match entries with
  | [] => ret subs
  | (n, trg) :: rest =>
      match lookup n subs with
      | None =>
          let s := newSubscriber n in
          match updateTrigger W s trg with
          | (_, Some err) =>
              call (logger_Error "Could not setup trigger" false) ;;
              ret subs
          | (s', None) =>
              call (backend_Subscribe n) ;;
              updatePass W rest (store n s' subs)
          end
      | Some s =>
          if DeepEqual W (trigger s) trg then
            updatePass W rest subs
          else
            call (logger_Info "Updating trigger configuration") ;;
            match updateTrigger W s trg with
            | (s', Some err) =>
                call (logger_Error "Could not setup trigger" false) ;;
                ret (store n s' subs)
            | (s', None) =>
                updatePass W rest (store n s' subs)
            end
      end
  end.

Definition UpdateFromConfig (W : World) (m : Manager) (c : Config) : M Call Manager :=
  subs <- removalPass c (subscribers m) (subscribers m) ;;
  subs' <- updatePass W (Triggers c) subs ;;
  ret (with_subscribers m subs').

(** *** Filter materialisation, with its log lines *)

(** The functions of the end of the file write to the logger of the
    context they are given, which is the manager's logger.  Here they are
    with the lines they write, in order; the value they return is the one
    of [materialize.materializeSubscriptionsAPIFilter] and
    [materialize.materializeFiltersList]. *)
Fixpoint rangeLeaf_logged (msg : string) (new : string -> string -> option Filter)
         (entries : list (string * string)) (materializedFilter : option Filter)
  : list Call * option Filter :=
  match entries with
  | [] => ([], materializedFilter)
  | (attribute, value) :: rest =>
      match new attribute value with
      | None => ([logger_Debug msg], None)
      | Some f => rangeLeaf_logged msg new rest (Some f)
      end
  end.

Fixpoint materializeSubscriptionsAPIFilter_logged (L : Library)
         (filter : SubscriptionsAPIFilter) {struct filter} : list Call * option Filter :=
  match filter with
  | mkSubscriptionsAPIFilter All Any Not Exact Prefix Suffix CESQL =>
      let loop :=
        fix loop (filters : list SubscriptionsAPIFilter) (lines : list Call)
                 (materializedFilters : list Filter) {struct filters}
          : list Call * list Filter :=
          match filters with
          | [] => (lines, materializedFilters)
          | f :: rest =>
              match materializeSubscriptionsAPIFilter_logged L f with
              | (written, None) =>
                  loop rest
                       (lines ++ written
                          ++ [logger_Warn "Failed to parse filter. Skipping filter."])%list
                       materializedFilters
              | (written, Some f') =>
                  loop rest (lines ++ written)%list (materializedFilters ++ [f'])%list
              end
          end in
      if (0 <? List.length Exact)%nat then
        rangeLeaf_logged "Invalid exact expression" (NewExactFilter L) Exact None
      else if (0 <? List.length Prefix)%nat then
        rangeLeaf_logged "Invalid prefix expression" (NewPrefixFilter L) Prefix None
      else if (0 <? List.length Suffix)%nat then
        rangeLeaf_logged "Invalid suffix expression" (NewSuffixFilter L) Suffix None
      else if (0 <? List.length All)%nat then
        let (lines, filters) := loop All [] [] in (lines, Some (NewAllFilter filters))
      else if (0 <? List.length Any)%nat then
        let (lines, filters) := loop Any [] [] in (lines, Some (NewAnyFilter filters))
      else match Not with
           | Some child =>
               let (lines, f) := materializeSubscriptionsAPIFilter_logged L child in
               (lines, Some (NewNotFilter f))
           | None =>
               if String.eqb CESQL "" then ([], None)
               else
                 match NewCESQLFilter L CESQL with
                 | None => ([logger_Debug "Found an Invalid CE SQL expression"], None)
                 | Some f => ([], Some f)
                 end
           end
  end.

Fixpoint materializeLoop_logged (L : Library) (filters : list SubscriptionsAPIFilter)
         (lines : list Call) (materializedFilters : list Filter)
  : list Call * list Filter :=
  match filters with
  | [] => (lines, materializedFilters)
  | f :: rest =>
      match materializeSubscriptionsAPIFilter_logged L f with
      | (written, None) =>
          materializeLoop_logged L rest
            (lines ++ written
               ++ [logger_Warn "Failed to parse filter. Skipping filter."])%list
            materializedFilters
      | (written, Some f') =>
          materializeLoop_logged L rest (lines ++ written)%list
                                 (materializedFilters ++ [f'])%list
      end
  end.

Definition materializeFiltersList_logged (L : Library)
           (filters : list SubscriptionsAPIFilter) : list Call * list Filter :=
  materializeLoop_logged L filters [] [].

(** *** Error logs that name the target *)

(** [cloudevents.TargetFromContext(ctx).String()], the argument of every
    error log of [send] and [dispatchCloudEventToTarget]: String has a
    pointer receiver and reads its fields, so a nil target panics, before
    the logger is called. *)
Definition targetString (W : World) (ctx : Context) : M Call string :=
  match TargetFromContext (url_Parse W) ctx with
  | Some url => ret url
  | None => panic (NilPointerDereference "cloudevents.TargetFromContext(ctx)")
  end.

Definition logError (W : World) (ctx : Context) (msg : string) (lost : bool) : M Call unit :=
  targetString W ctx ;;
  call (logger_Error msg lost).

(** *** send *)

(** [send]: one call of ceClient.Request; the [switch] tests IsACK, then
    IsUndelivered, then IsNACK.  Calling a nil [ceHandler] panics. *)
Definition send (W : World) (m : Manager) (ctx : Context) (event : Event) : M Call bool :=
  h <- history ;;
  call (ceClient_Request ctx event) ;;
  let (res, result) := ceClient_respond W h ctx event in
  if IsACK result then
    match res with
    | Some reply =>
        match ceHandler m with
        | None => panic (NilPointerDereference "m.ceHandler")
        | Some handler =>
            h' <- history ;;
            call (ceHandler_call ctx reply) ;;
            match handler h' ctx reply with
            | Some err =>
                logError W ctx "Failed to consume response from %s" false ;;
                (* Not ingesting the response is considered an error. *)
                ret false
            | None => ret true
            end
        end
    | None => ret true
    end
  else if IsUndelivered result then
    logError W ctx "Failed to send event to %s" false ;;
    ret false
  else if IsNACK result then
    logError W ctx "Event not accepted at %s" false ;;
    ret false
  else
    logError W ctx "Unknown event send outcome at %s" false ;;
    ret false.

(** *** dispatchCloudEventToTarget *)

(** The guard of the retry branch, with Go's short-circuit [&&]: the
    delivery options, the retry count and the policy when it holds. *)
Definition retryGuard (target : Target)
  : option (DeliveryOptions * Z * BackoffPolicyType) :=
  match Target_DeliveryOptions target with
  | None => None
  | Some opts =>
      match Retry opts with
      | None => None
      | Some retry =>
          if (1 <=? retry)%Z then
            match BackoffPolicy opts with
            | None => None
            | Some policy => Some (opts, retry, policy)
            end
          else None
      end
  end.

(** The [switch] on the backoff policy. *)
Definition withRetries (ctx : Context) (policy : BackoffPolicyType) (delay retry : Z)
  : Context :=
  if String.eqb policy BackoffPolicyLinear then
    ContextWithRetriesLinearBackoff ctx delay retry
  else if String.eqb policy BackoffPolicyExponential then
    ContextWithRetriesExponentialBackoff ctx delay retry
  else
    ContextWithRetriesConstantBackoff ctx delay retry.

(** The guard of the dead-letter branch: the URL when it holds. *)
Definition deadLetterGuard (target : Target) : option string :=
  match Target_DeliveryOptions target with
  | None => None
  | Some opts =>
      match DeadLetterURL opts with
      | None => None
      | Some url => if String.eqb url "" then None else Some url
      end
  end.

(** Lines 156 to 183: the context of the primary send. *)
Definition retryContext (W : World) (m : Manager) (target : Target) : M Call Context :=
  let ctx0 := ContextWithTarget (ctx m) (URL target) in
  match retryGuard target with
  | Some (opts, retry, policy) =>
      match BackoffDelay opts with
      | None =>
          panic (NilPointerDereference "target.DeliveryOptions.BackoffDelay")
      | Some s =>
          let (delay, err) := period_Parse W s in
          match err with
          | Some _ =>
              logError W ctx0
                       "Event was lost while sending to %s due to backoff delay parsing"
                       true
          | None => ret tt
          end ;;
          ret (withRetries ctx0 policy delay retry)
      end
  | None => ret ctx0
  end.

(** Lines 189 to 201: what follows a primary send that returned false.
    The last log names the target of [ctx] as it is then: the dead-letter
    URL when the branch was taken, else the target URL (the retry policy
    attached for the primary send leaves the target of the context
    alone). *)
Definition deadLetter (W : World) (m : Manager) (target : Target) (event : Event)
  : M Call unit :=
  match deadLetterGuard target with
  | Some url =>
      let ctx2 := ContextWithTarget (ctx m) url in
      ok <- send W m ctx2 event ;;
      if ok : bool then ret tt
      else logError W ctx2 "Event was lost while sending to %s" true
  | None =>
      logError W (ContextWithTarget (ctx m) (URL target))
               "Event was lost while sending to %s" true
  end.

Definition dispatchCloudEventToTarget (W : World) (m : Manager)
           (target : Target) (event : Event) : M Call unit :=
  ctx1 <- retryContext W m target ;;
  ok <- send W m ctx1 event ;;
  if ok : bool then ret tt
  else deadLetter W m target event.

(** *** DispatchCloudEvent *)

Fixpoint dispatchLoop (W : World) (m : Manager) (entries : list (string * Trigger))
         (event : Event) : M Call unit :=
  match entries with
  | [] => ret tt
  | (_, trg) :: rest =>
      let (lines, filters) := materializeFiltersList_logged (library W) (Filters trg) in
      calls lines ;;
      match Filter_eval (library W) (NewAllFilter filters) event with
      | FailFilter =>
          call (logger_Debug "Skipped delivery due to filter") ;;
          dispatchLoop W m rest event
      | _ =>
          dispatchCloudEventToTarget W m (Trigger_Target trg) event ;;
          dispatchLoop W m rest event
      end
  end.

Definition DispatchCloudEvent (W : World) (m : Manager) (event : Event) : M Call unit :=
  dispatchLoop W m (triggers m) event.

(** *** Predicates used in the statements *)

(** The precondition of the retry branch: BackoffDelay is non-nil whenever
    DeliveryOptions is non-nil with Retry non-nil and at least 1 and
    BackoffPolicy non-nil. *)
Definition backoffDelayPrecondition (target : Target) : Prop :=
  forall opts retry policy,
    Target_DeliveryOptions target = Some opts ->
    Retry opts = Some retry ->
    (1 <= retry)%Z ->
    BackoffPolicy opts = Some policy ->
    BackoffDelay opts <> None.

(** Every subscriber of the table is stored under its own name. *)
Definition keyed (subs : list (string * subscriber)) : Prop :=
  Forall (fun entry => name (snd entry) = fst entry) subs.

Definition isRequest (c : Call) : bool :=
  match c with ceClient_Request _ _ => true | _ => false end.

(** The contexts of the requests of a trace, in order. *)
Fixpoint requests (calls : list Call) : list Context :=
  match calls with
  | [] => []
  | ceClient_Request ctx _ :: rest => ctx :: requests rest
  | _ :: rest => requests rest
  end.

(** The log that declares an event lost at the end of a dispatch. *)
Definition isLostLog (c : Call) : bool :=
  match c with
  | logger_Error msg true => String.eqb msg "Event was lost while sending to %s"
  | _ => false
  end.

(** A call a successful send ends with: the request itself, or the call of
    the reply handler. *)
Definition isDelivery (c : Call) : bool :=
  match c with
  | ceClient_Request _ _ | ceHandler_call _ _ => true
  | _ => false
  end.

(** The message [send] logs for a result that is not an ACK. *)
Definition failureMessage (result : Result) : string :=
  if IsUndelivered result then "Failed to send event to %s"
  else if IsNACK result then "Event not accepted at %s"
  else "Unknown event send outcome at %s".

(** A line written to the logger. *)
Definition isLog (c : Call) : bool :=
  match c with
  | logger_Error _ _ | logger_Info _ | logger_Debug _ | logger_Warn _ => true
  | _ => false
  end.

Definition isSkipLine (c : Call) : bool :=
  match c with
  | logger_Debug msg => String.eqb msg "Skipped delivery due to filter"
  | _ => false
  end.

(** A name is a key of the map. *)
Definition hasKey {V} (n : string) (m : list (string * V)) : Prop :=
  lookup n m <> None.

(** *** Sequences of operations on one manager *)

Inductive Op : Type :=
| OpUpdateFromConfig (c : Config)
| OpRegisterCloudEventHandler (h : CloudEventHandler)
| OpDispatchCloudEvent (event : Event).

Definition step (W : World) (m : Manager) (op : Op) : M Call Manager :=
  match op with
  | OpUpdateFromConfig c => UpdateFromConfig W m c
  | OpRegisterCloudEventHandler h => ret (RegisterCloudEventHandler m h)
  | OpDispatchCloudEvent event => DispatchCloudEvent W m event ;; ret m
  end.

Fixpoint steps (W : World) (m : Manager) (ops : list Op) : M Call Manager :=
  match ops with
  | [] => ret m
  | op :: rest => m' <- step W m op ;; steps W m' rest
  end.

End subscriptions.

(** ** The broker supervisor (pkg/broker/broker.go) *)

Module broker.
Import effects.
Local Open Scope go_scope.

Inductive Task : Type := backend_Start | ingest_Start.
Inductive Callback : Type := ingest_UpdateFromConfig | subscription_UpdateFromConfig.
Inductive Handler : Type := backend_Produce.

(** Calls of [Start] on the components of the instance and on its error
    group.  [signal.NotifyContext] and [errgroup.WithContext] only build
    the context these calls receive. *)
Inductive Call : Type :=
| backend_Init
| grp_Go (t : Task)
| cw_AddCallback (cb : Callback)
| cw_Start
| ingest_RegisterCloudEventHandler (h : Handler)
| grp_Wait.

(** What the components answer: the errors of backend.Init, of cw.Start
    and of grp.Wait ([None] is nil). *)
Record Answers : Type := mkAnswers {
  Init_err : option string;
  cwStart_err : option string;
  Wait_err : option string
}.

Definition Start (A : Answers) : M Call (option string) :=
  call backend_Init ;;
  match Init_err A with
  | Some err => ret (Some ("could not initialize backend: " ++ err))
  | None =>
      call (grp_Go backend_Start) ;;
      call (cw_AddCallback ingest_UpdateFromConfig) ;;
      call (cw_AddCallback subscription_UpdateFromConfig) ;;
      call cw_Start ;;
      match cwStart_err A with
      | Some err => ret (Some ("could not start configuration watcher: " ++ err))
      | None =>
          call (ingest_RegisterCloudEventHandler backend_Produce) ;;
          call (grp_Go ingest_Start) ;;
          call grp_Wait ;;
          ret (Wait_err A)
      end
  end.

(** The steps of a run in which nothing fails. *)
Definition Start_steps : list Call :=
  [ backend_Init;
    grp_Go backend_Start;
    cw_AddCallback ingest_UpdateFromConfig;
    cw_AddCallback subscription_UpdateFromConfig;
    cw_Start;
    ingest_RegisterCloudEventHandler backend_Produce;
    grp_Go ingest_Start;
    grp_Wait ].

Definition spawns (c : Call) : bool :=
  match c with grp_Go _ => true | _ => false end.

End broker.

(** ** A concrete world, for running the model on explicit inputs *)

Module sample.
Import config eventfilter subscriptionsapi materialize cloudevents effects subscriptions.

(** The leaf constructors reject an empty attribute or an empty value. *)
Definition nonEmpty (attribute value : string) : bool :=
  negb (String.eqb attribute "") && negb (String.eqb value "").

Definition attributeOf (event : Event) (attribute : string) : option string :=
  if String.eqb attribute "id" then Some (ev_ID event)
  else if String.eqb attribute "source" then Some (ev_Source event)
  else if String.eqb attribute "type" then Some (ev_Type event)
  else None.

Definition hasSuffix (s suffix : string) : bool :=
  (String.length suffix <=? String.length s)%nat &&
  String.eqb (substring (String.length s - String.length suffix)
                        (String.length suffix) s) suffix.

Definition onAttribute (event : Event) (attribute : string) (test : string -> bool)
  : FilterResult :=
  match attributeOf event attribute with
  | Some v => if test v then PassFilter else FailFilter
  | None => FailFilter
  end.

Fixpoint evalFilter (f : Filter) (event : Event) {struct f} : FilterResult :=
  match f with
  | exactFilter a v => onAttribute event a (String.eqb v)
  | prefixFilter a p => onAttribute event a (String.prefix p)
  | suffixFilter a s => onAttribute event a (fun v => hasSuffix v s)
  | allFilter fs =>
      (fix all (l : list Filter) : FilterResult :=
         match l with
         | [] => PassFilter
         | g :: rest =>
             match evalFilter g event with
             | FailFilter => FailFilter
             | _ => all rest
             end
         end) fs
  | anyFilter fs =>
      (fix any (l : list Filter) : FilterResult :=
         match l with
         | [] => FailFilter
         | g :: rest =>
             match evalFilter g event with
             | PassFilter => PassFilter
             | _ => any rest
             end
         end) fs
  | notFilter (Some g) =>
      match evalFilter g event with
      | FailFilter => PassFilter
      | PassFilter => FailFilter
      | NoFilter => NoFilter
      end
  | notFilter None => NoFilter
  | ceSQLFilter _ => NoFilter
  end.

Definition knative : Library :=
  {| exactValid := nonEmpty;
     prefixValid := nonEmpty;
     suffixValid := nonEmpty;
     cesqlValid := fun expression => negb (String.eqb expression "SELECT (");
     Filter_eval := evalFilter |}.

(** Two ISO-8601 periods parse; anything else is an error, with the zero
    period. *)
Definition parsePeriod (s : string) : Z * option string :=
  if String.eqb s "PT1S" then (1000000000%Z, None)
  else if String.eqb s "PT0S" then (0%Z, None)
  else (0%Z, Some "expected 'P' period mark at the start").

Definition reply : Event := mkEvent "2" "target" "ex.reply".

(** Three reachable targets: one acknowledges, one acknowledges with a
    reply event, one rejects; every other URL is unreachable. *)
Definition respond (_ : list Call) (ctx : Context) (_ : Event) : option Event * Result :=
  match ctxTarget ctx with
  | Some url =>
      if String.eqb url "http://ack" then (None, mkResult true false false)
      else if String.eqb url "http://reply" then (Some reply, mkResult true false false)
      else if String.eqb url "http://nack" then (None, mkResult false false true)
      else (None, mkResult false true false)
  | None => (None, mkResult false true false)
  end.

(** Structural equality of triggers. *)
Definition option_eqb {A} (eqb : A -> A -> bool) (x y : option A) : bool :=
  match x, y with
  | None, None => true
  | Some a, Some b => eqb a b
  | _, _ => false
  end.

Fixpoint list_eqb {A} (eqb : A -> A -> bool) (x y : list A) : bool :=
  match x, y with
  | [], [] => true
  | a :: x', b :: y' => eqb a b && list_eqb eqb x' y'
  | _, _ => false
  end.

Definition entry_eqb (x y : string * string) : bool :=
  String.eqb (fst x) (fst y) && String.eqb (snd x) (snd y).

Fixpoint filter_eqb (x y : SubscriptionsAPIFilter) {struct x} : bool :=
  match x, y with
  | mkSubscriptionsAPIFilter all any not exact prefix suffix cesql,
    mkSubscriptionsAPIFilter all' any' not' exact' prefix' suffix' cesql' =>
      let filters_eqb :=
        fix filters_eqb (l l' : list SubscriptionsAPIFilter) {struct l} : bool :=
          match l, l' with
          | [], [] => true
          | a :: r, b :: r' => filter_eqb a b && filters_eqb r r'
          | _, _ => false
          end in
      filters_eqb all all' && filters_eqb any any' &&
      match not, not' with
      | None, None => true
      | Some a, Some b => filter_eqb a b
      | _, _ => false
      end &&
      list_eqb entry_eqb exact exact' && list_eqb entry_eqb prefix prefix' &&
      list_eqb entry_eqb suffix suffix' && String.eqb cesql cesql'
  end.

Definition options_eqb (x y : DeliveryOptions) : bool :=
  option_eqb Z.eqb (Retry x) (Retry y) &&
  option_eqb String.eqb (BackoffPolicy x) (BackoffPolicy y) &&
  option_eqb String.eqb (BackoffDelay x) (BackoffDelay y) &&
  option_eqb String.eqb (DeadLetterURL x) (DeadLetterURL y).

Definition trigger_eqb (x y : Trigger) : bool :=
  list_eqb filter_eqb (Filters x) (Filters y) &&
  String.eqb (URL (Trigger_Target x)) (URL (Trigger_Target y)) &&
  option_eqb options_eqb (Target_DeliveryOptions (Trigger_Target x))
                         (Target_DeliveryOptions (Trigger_Target y)).

(** Every expression of the list compiles: the compiled list. *)
Fixpoint compileAll (L : Library) (filters : list SubscriptionsAPIFilter)
  : option (list Filter) :=
  match filters with
  | [] => Some []
  | f :: rest =>
      match materializeSubscriptionsAPIFilter L f, compileAll L rest with
      | Some f', Some rest' => Some (f' :: rest')
      | _, _ => None
      end
  end.

(** Modelled from the spec: [subscriber.updateTrigger], declared in a file
    that is not among the sources.  "Compile filter tree, parse backoff
    delay"; an invalid filter or an unparseable backoff is a configuration
    error, and then the "subscriber is left in prior good state". *)
Definition updateTrigger_spec (s : subscriber) (trg : Trigger) : subscriber * option string :=
  match compileAll knative (Filters trg) with
  | None => (s, Some "invalid filter")
  | Some compiled =>
      let delay :=
        match Target_DeliveryOptions (Trigger_Target trg) with
        | Some opts =>
            match BackoffDelay opts with
            | Some d => parsePeriod d
            | None => (0%Z, None)
            end
        | None => (0%Z, None)
        end in
      match delay with
      | (_, Some err) => (s, Some err)
      | (d, None) =>
          ({| name := name s; trigger := trg; filter := compiled; backoff := d |}, None)
      end
  end.

(** url.Parse, as far as these examples go: a URL with the http scheme. *)
Definition parseURL (s : string) : bool := String.prefix "http://" s.

Definition respond_ACK_has_target (h : list Call) (ctx : Context) (event : Event) :
  IsACK (snd (respond h ctx event)) = true ->
  TargetFromContext parseURL ctx <> None.
Proof.
  unfold respond, TargetFromContext.
  destruct (ctxTarget ctx) as [url|]; [|discriminate].
  destruct (String.eqb_spec url "http://ack") as [->|_]; [discriminate|].
  destruct (String.eqb_spec url "http://reply") as [->|_]; [discriminate|].
  destruct (String.eqb url "http://nack"); discriminate.
Qed.

Definition world : World :=
  {| library := knative;
     period_Parse := parsePeriod;
     ceClient_respond := respond;
     updateTrigger := updateTrigger_spec;
     DeepEqual := trigger_eqb;
     url_Parse := parseURL;
     ceClient_ACK_has_target := respond_ACK_has_target |}.

(** A reply handler that accepts, and one that fails. *)
Definition produce : CloudEventHandler := fun _ _ _ => None.
Definition produceFails : CloudEventHandler := fun _ _ _ => Some "backend unavailable".

Definition manager : Manager :=
  {| ceHandler := Some produce; triggers := []; subscribers := []; ctx := Background |}.

Definition event : Event := mkEvent "1" "s" "ex.t".

Definition exact (attribute value : string) : SubscriptionsAPIFilter :=
  mkSubscriptionsAPIFilter [] [] None [(attribute, value)] [] [] "".
Definition not (child : SubscriptionsAPIFilter) : SubscriptionsAPIFilter :=
  mkSubscriptionsAPIFilter [] [] (Some child) [] [] [] "".

Definition options (retry : Z) (policy delay : string) (dls : option string)
  : DeliveryOptions :=
  {| Retry := Some retry; BackoffPolicy := Some policy;
     BackoffDelay := Some delay; DeadLetterURL := dls |}.

Definition goodTrigger : Trigger :=
  mkTrigger [exact "type" "ex.t"] (mkTarget "http://ack" None).
Definition badTrigger : Trigger :=
  mkTrigger [exact "type" "ex.t"]
            (mkTarget "http://ack" (Some (options 3 "linear" "soon" None))).

End sample.

(** * Properties *)

Import config eventfilter subscriptionsapi materialize cloudevents effects subscriptions.

(** ** Filter materialisation *)

Section Materialisation.
Variable L : Library.

Lemma materializeLoop_acc (filters : list SubscriptionsAPIFilter) :
  forall acc : list Filter,
    materializeLoop L filters acc = (acc ++ materializeLoop L filters [])%list.
Proof.
  induction filters as [|f rest IH]; intros acc; simpl.
  - now rewrite app_nil_r.
  - destruct (materializeSubscriptionsAPIFilter L f) as [f'|].
    + rewrite (IH (acc ++ [f'])%list), (IH [f']), <- app_assoc. reflexivity.
    + apply IH.
Qed.

Lemma materializeFiltersList_cons (f : SubscriptionsAPIFilter)
      (rest : list SubscriptionsAPIFilter) :
  materializeFiltersList L (f :: rest) =
  match materializeSubscriptionsAPIFilter L f with
  | Some f' => f' :: materializeFiltersList L rest
  | None => materializeFiltersList L rest
  end.
Proof.
  unfold materializeFiltersList; simpl.
  destruct (materializeSubscriptionsAPIFilter L f) as [f'|]; [|reflexivity].
  now rewrite materializeLoop_acc.
Qed.

Lemma materializeFiltersList_app (xs ys : list SubscriptionsAPIFilter) :
  materializeFiltersList L (xs ++ ys) =
  (materializeFiltersList L xs ++ materializeFiltersList L ys)%list.
Proof.
  induction xs as [|x xs IH]; [reflexivity|].
  rewrite <- app_comm_cons, !materializeFiltersList_cons, IH.
  now destruct (materializeSubscriptionsAPIFilter L x).
Qed.

(** The loop inlined in [materializeSubscriptionsAPIFilter] is the loop of
    [materializeFiltersList]. *)
Lemma inlined_loop (filters : list SubscriptionsAPIFilter) :
  forall acc : list Filter,
    ((fix loop (filters : list SubscriptionsAPIFilter)
              (materializedFilters : list Filter) {struct filters}
       : list Filter :=
       match filters with
       | [] => materializedFilters
       | f :: rest =>
           match materializeSubscriptionsAPIFilter L f with
           | None => loop rest materializedFilters
           | Some f' => loop rest (materializedFilters ++ [f'])%list
           end
       end) filters acc) = materializeLoop L filters acc.
Proof.
  induction filters as [|f rest IH]; intros acc; [reflexivity|].
  simpl. destruct (materializeSubscriptionsAPIFilter L f); apply IH.
Qed.

(** The All case builds its filter from [materializeFiltersList]. *)
Lemma materialize_All (a : SubscriptionsAPIFilter)
      (All Any : list SubscriptionsAPIFilter)
      (Not : option SubscriptionsAPIFilter) (CESQL : string) :
  materializeSubscriptionsAPIFilter L
    (mkSubscriptionsAPIFilter (a :: All) Any Not [] [] [] CESQL) =
  Some (NewAllFilter (materializeFiltersList L (a :: All))).
Proof.
  unfold materializeFiltersList.
  rewrite <- inlined_loop. reflexivity.
Qed.

(** The list materialises as the list without its failed expression. *)
Lemma materializeFiltersList_without_failed
      (before after : list SubscriptionsAPIFilter) (failed : SubscriptionsAPIFilter) :
  materializeSubscriptionsAPIFilter L failed = None ->
  materializeFiltersList L (before ++ failed :: after) =
  materializeFiltersList L (before ++ after).
Proof.
  intros Hfail.
  rewrite !materializeFiltersList_app, materializeFiltersList_cons, Hfail.
  reflexivity.
Qed.

Lemma materializeFiltersList_keeps (filters : list SubscriptionsAPIFilter)
      (kept : SubscriptionsAPIFilter) (kept' : Filter) :
  materializeSubscriptionsAPIFilter L kept = Some kept' ->
  In kept filters ->
  In kept' (materializeFiltersList L filters).
Proof.
  intros Hkept. induction filters as [|x xs IH]; intros Hin; [contradiction|].
  rewrite materializeFiltersList_cons.
  destruct Hin as [->|Hin].
  - rewrite Hkept. now left.
  - destruct (materializeSubscriptionsAPIFilter L x); [right|]; now apply IH.
Qed.

(** C9: a Not expression whose child fails to compile does not
    materialise to nil: the code returns a not-filter wrapping the nil
    child, which [materializeFiltersList] then keeps. *)
Theorem materialize_Not_wraps_failed_child (child : SubscriptionsAPIFilter)
        (CESQL : string) :
  materializeSubscriptionsAPIFilter L child = None ->
  materializeSubscriptionsAPIFilter L
    (mkSubscriptionsAPIFilter [] [] (Some child) [] [] [] CESQL) =
    Some (NewNotFilter None)
  /\ materializeFiltersList L
       [mkSubscriptionsAPIFilter [] [] (Some child) [] [] [] CESQL] =
     [notFilter None].
Proof.
  intros Hchild.
  assert (H : materializeSubscriptionsAPIFilter L
                (mkSubscriptionsAPIFilter [] [] (Some child) [] [] [] CESQL) =
              Some (NewNotFilter None)).
  { cbn. now rewrite Hchild. }
  split; [exact H|].
  now rewrite materializeFiltersList_cons, H.
Qed.

End Materialisation.

(** *** Materialisation with its log lines *)

(** Induction on filter expressions, through the lists and the pointer. *)
Lemma SubscriptionsAPIFilter_nested_ind (P : SubscriptionsAPIFilter -> Prop) :
  (forall All Any Not Exact Prefix Suffix CESQL,
      Forall P All -> Forall P Any ->
      match Not with Some child => P child | None => True end ->
      P (mkSubscriptionsAPIFilter All Any Not Exact Prefix Suffix CESQL)) ->
  forall f, P f.
Proof.
  intros H.
  exact (fix IH (f : SubscriptionsAPIFilter) : P f :=
           match f with
           | mkSubscriptionsAPIFilter All Any Not Exact Prefix Suffix CESQL =>
               H All Any Not Exact Prefix Suffix CESQL
                 ((fix go (l : list SubscriptionsAPIFilter) : Forall P l :=
                     match l with
                     | [] => Forall_nil P
                     | x :: r => Forall_cons x (IH x) (go r)
                     end) All)
                 ((fix go (l : list SubscriptionsAPIFilter) : Forall P l :=
                     match l with
                     | [] => Forall_nil P
                     | x :: r => Forall_cons x (IH x) (go r)
                     end) Any)
                 (match Not as n return match n with Some child => P child | None => True end
                  with
                  | Some child => IH child
                  | None => I
                  end)
           end).
Qed.

Section Logged.
Variable L : Library.

Lemma rangeLeaf_logged_value (msg : string) (new : string -> string -> option Filter)
      (entries : list (string * string)) :
  forall acc, snd (rangeLeaf_logged msg new entries acc) = rangeLeaf new entries acc.
Proof.
  induction entries as [|[a v] rest IH]; intros acc; simpl; [reflexivity|].
  destruct (new a v); [apply IH|reflexivity].
Qed.

Lemma inlined_loop_logged (filters : list SubscriptionsAPIFilter) :
  forall lines acc,
    ((fix loop (filters : list SubscriptionsAPIFilter) (lines : list Call)
               (materializedFilters : list Filter) {struct filters}
        : list Call * list Filter :=
        match filters with
        | [] => (lines, materializedFilters)
        | f :: rest =>
            match materializeSubscriptionsAPIFilter_logged L f with
            | (written, None) =>
                loop rest
                     (lines ++ written
                        ++ [logger_Warn "Failed to parse filter. Skipping filter."])%list
                     materializedFilters
            | (written, Some f') =>
                loop rest (lines ++ written)%list (materializedFilters ++ [f'])%list
            end
        end) filters lines acc) = materializeLoop_logged L filters lines acc.
Proof.
  induction filters as [|f rest IH]; intros lines acc; [reflexivity|].
  simpl. destruct (materializeSubscriptionsAPIFilter_logged L f) as [written [f'|]];
    apply IH.
Qed.

Lemma logged_All (a : SubscriptionsAPIFilter) (All Any : list SubscriptionsAPIFilter)
      (Not : option SubscriptionsAPIFilter) (CESQL : string) :
  materializeSubscriptionsAPIFilter_logged L
    (mkSubscriptionsAPIFilter (a :: All) Any Not [] [] [] CESQL) =
  let (lines, filters) := materializeLoop_logged L (a :: All) [] [] in
  (lines, Some (NewAllFilter filters)).
Proof.
  rewrite <- inlined_loop_logged. reflexivity.
Qed.

Lemma logged_Any (a : SubscriptionsAPIFilter) (Any : list SubscriptionsAPIFilter)
      (Not : option SubscriptionsAPIFilter) (CESQL : string) :
  materializeSubscriptionsAPIFilter_logged L
    (mkSubscriptionsAPIFilter [] (a :: Any) Not [] [] [] CESQL) =
  let (lines, filters) := materializeLoop_logged L (a :: Any) [] [] in
  (lines, Some (NewAnyFilter filters)).
Proof.
  rewrite <- inlined_loop_logged. reflexivity.
Qed.

Lemma materialize_Any (a : SubscriptionsAPIFilter) (Any : list SubscriptionsAPIFilter)
      (Not : option SubscriptionsAPIFilter) (CESQL : string) :
  materializeSubscriptionsAPIFilter L
    (mkSubscriptionsAPIFilter [] (a :: Any) Not [] [] [] CESQL) =
  Some (NewAnyFilter (materializeFiltersList L (a :: Any))).
Proof.
  unfold materializeFiltersList. rewrite <- inlined_loop. reflexivity.
Qed.

(** The accumulators of the logged loop only grow. *)
Lemma materializeLoop_logged_acc (filters : list SubscriptionsAPIFilter) :
  forall lines acc,
    materializeLoop_logged L filters lines acc =
    ((lines ++ fst (materializeLoop_logged L filters [] []))%list,
     (acc ++ snd (materializeLoop_logged L filters [] []))%list).
Proof.
  induction filters as [|f rest IH]; intros lines acc; simpl.
  - now rewrite !app_nil_r.
  - destruct (materializeSubscriptionsAPIFilter_logged L f) as [written [f'|]].
    + rewrite (IH (lines ++ written)%list (acc ++ [f'])%list).
      rewrite (IH written [f']). simpl. now rewrite <- !app_assoc.
    + rewrite (IH (lines ++ written ++ _)%list acc).
      rewrite (IH (written ++ _)%list []). simpl. now rewrite <- !app_assoc.
Qed.

Lemma materializeFiltersList_logged_cons (f : SubscriptionsAPIFilter)
      (rest : list SubscriptionsAPIFilter) :
  materializeFiltersList_logged L (f :: rest) =
  match materializeSubscriptionsAPIFilter_logged L f with
  | (written, Some f') =>
      ((written ++ fst (materializeFiltersList_logged L rest))%list,
       f' :: snd (materializeFiltersList_logged L rest))
  | (written, None) =>
      ((written ++ logger_Warn "Failed to parse filter. Skipping filter."
                :: fst (materializeFiltersList_logged L rest))%list,
       snd (materializeFiltersList_logged L rest))
  end.
Proof.
  unfold materializeFiltersList_logged. simpl.
  destruct (materializeSubscriptionsAPIFilter_logged L f) as [written [f'|]];
    rewrite materializeLoop_logged_acc; simpl; [reflexivity|].
  now rewrite <- app_assoc.
Qed.

Lemma loop_logged_value (filters : list SubscriptionsAPIFilter) :
  Forall (fun f => snd (materializeSubscriptionsAPIFilter_logged L f) =
                   materializeSubscriptionsAPIFilter L f) filters ->
  snd (materializeFiltersList_logged L filters) = materializeFiltersList L filters.
Proof.
  induction 1 as [|f rest Hf _ IH]; [reflexivity|].
  rewrite materializeFiltersList_logged_cons, materializeFiltersList_cons, <- Hf.
  destruct (materializeSubscriptionsAPIFilter_logged L f) as [written [f'|]]; simpl;
    now rewrite IH.
Qed.

(** The value of the logged function is the value the pure one computes. *)
Lemma materializeSubscriptionsAPIFilter_logged_value (f : SubscriptionsAPIFilter) :
  snd (materializeSubscriptionsAPIFilter_logged L f) =
  materializeSubscriptionsAPIFilter L f.
Proof.
  induction f as [All Any Not Exact Prefix Suffix CESQL HAll HAny HNot]
    using SubscriptionsAPIFilter_nested_ind.
  destruct Exact as [|e Exact'];
    [|exact (rangeLeaf_logged_value _ _ (e :: Exact') None)].
  destruct Prefix as [|e Prefix'];
    [|exact (rangeLeaf_logged_value _ _ (e :: Prefix') None)].
  destruct Suffix as [|e Suffix'];
    [|exact (rangeLeaf_logged_value _ _ (e :: Suffix') None)].
  destruct All as [|a All'].
  - destruct Any as [|a Any'].
    + destruct Not as [child|].
      * change (snd (let (lines, f) := materializeSubscriptionsAPIFilter_logged L child in
                     (lines, Some (NewNotFilter f))) =
                Some (NewNotFilter (materializeSubscriptionsAPIFilter L child))).
        rewrite <- HNot.
        now destruct (materializeSubscriptionsAPIFilter_logged L child).
      * simpl. destruct (String.eqb CESQL ""); [reflexivity|].
        now destruct (NewCESQLFilter L CESQL).
    + rewrite logged_Any, materialize_Any.
      pose proof (loop_logged_value (a :: Any') HAny) as Hv.
      unfold materializeFiltersList_logged in Hv.
      destruct (materializeLoop_logged L (a :: Any') [] []) as [lines filters].
      simpl in *. now rewrite Hv.
  - rewrite logged_All, materialize_All.
    pose proof (loop_logged_value (a :: All') HAll) as Hv.
    unfold materializeFiltersList_logged in Hv.
    destruct (materializeLoop_logged L (a :: All') [] []) as [lines filters].
    simpl in *. now rewrite Hv.
Qed.

Lemma materializeFiltersList_logged_value (filters : list SubscriptionsAPIFilter) :
  snd (materializeFiltersList_logged L filters) = materializeFiltersList L filters.
Proof.
  apply loop_logged_value. apply Forall_forall. intros f _.
  apply materializeSubscriptionsAPIFilter_logged_value.
Qed.

Lemma materializeFiltersList_logged_app (xs ys : list SubscriptionsAPIFilter) :
  fst (materializeFiltersList_logged L (xs ++ ys)) =
  (fst (materializeFiltersList_logged L xs) ++ fst (materializeFiltersList_logged L ys))%list.
Proof.
  induction xs as [|x xs IH]; [reflexivity|].
  rewrite <- app_comm_cons, !materializeFiltersList_logged_cons.
  destruct (materializeSubscriptionsAPIFilter_logged L x) as [written [f'|]]; simpl;
    rewrite IH, <- ?app_assoc; reflexivity.
Qed.

(** A failed expression leaves the warning of the loop among the lines. *)
Lemma failed_expression_warns (before after : list SubscriptionsAPIFilter)
      (failed : SubscriptionsAPIFilter) :
  materializeSubscriptionsAPIFilter L failed = None ->
  In (logger_Warn "Failed to parse filter. Skipping filter.")
     (fst (materializeFiltersList_logged L (before ++ failed :: after))).
Proof.
  intros Hfail.
  rewrite materializeFiltersList_logged_app, materializeFiltersList_logged_cons.
  pose proof (materializeSubscriptionsAPIFilter_logged_value failed) as Hv.
  rewrite Hfail in Hv.
  destruct (materializeSubscriptionsAPIFilter_logged L failed) as [written [f'|]];
    [discriminate|].
  simpl. apply in_or_app. right. apply in_or_app. right. now left.
Qed.

End Logged.

(** One iteration of the loop of [DispatchCloudEvent]. *)
Lemma dispatchLoop_step (W : World) (m : Manager) (n : string) (trg : Trigger)
      (rest : list (string * Trigger)) (event : Event) (h : list Call) :
  dispatchLoop W m ((n, trg) :: rest) event h =
  bind (calls (fst (materializeFiltersList_logged (library W) (Filters trg))))
       (fun _ =>
          match Filter_eval (library W)
                  (NewAllFilter (materializeFiltersList (library W) (Filters trg)))
                  event with
          | FailFilter =>
              bind (call (logger_Debug "Skipped delivery due to filter"))
                   (fun _ => dispatchLoop W m rest event)
          | _ =>
              bind (dispatchCloudEventToTarget W m (Trigger_Target trg) event)
                   (fun _ => dispatchLoop W m rest event)
          end) h.
Proof.
  simpl. rewrite <- materializeFiltersList_logged_value.
  now destruct (materializeFiltersList_logged (library W) (Filters trg)).
Qed.

(** C4 (as amended): an expression of a filter list that fails to compile
    is skipped on its own.  [materializeFiltersList] still returns a list,
    the one it returns for the list without that expression, in which
    every expression that compiles keeps its place, and it writes the
    warning of the skipped filter.  [DispatchCloudEvent] does not skip a
    trigger with such a list: it evaluates the all-filter of the
    remaining expressions and delivers unless that filter fails. *)
Theorem materializeFiltersList_skips_failed
        (W : World) (m : Manager)
        (before after : list SubscriptionsAPIFilter) (failed : SubscriptionsAPIFilter)
        (n : string) (target : Target) (rest : list (string * Trigger))
        (event : Event) (h : list Call) :
  let L := library W in
  let filters := (before ++ failed :: after)%list in
  materializeSubscriptionsAPIFilter L failed = None ->
  materializeFiltersList L filters = materializeFiltersList L (before ++ after)
  /\ materializeFiltersList L filters =
     (materializeFiltersList L before ++ materializeFiltersList L after)%list
  /\ (forall (kept : SubscriptionsAPIFilter) (kept' : Filter),
         materializeSubscriptionsAPIFilter L kept = Some kept' ->
         In kept (before ++ after) ->
         In kept' (materializeFiltersList L filters))
  /\ snd (materializeFiltersList_logged L filters) =
     materializeFiltersList L (before ++ after)
  /\ In (logger_Warn "Failed to parse filter. Skipping filter.")
        (fst (materializeFiltersList_logged L filters))
  /\ dispatchLoop W m ((n, mkTrigger filters target) :: rest) event h =
     bind (calls (fst (materializeFiltersList_logged L filters)))
          (fun _ =>
             match Filter_eval L (NewAllFilter (materializeFiltersList L (before ++ after)))
                     event with
             | FailFilter =>
                 bind (call (logger_Debug "Skipped delivery due to filter"))
                      (fun _ => dispatchLoop W m rest event)
             | _ =>
                 bind (dispatchCloudEventToTarget W m target event)
                      (fun _ => dispatchLoop W m rest event)
             end) h.
Proof.
  intros L filters Hfail. unfold filters.
  pose proof (materializeFiltersList_without_failed L before after failed Hfail) as Heq.
  split; [exact Heq|]. split; [now rewrite Heq, materializeFiltersList_app|].
  split.
  - intros kept kept' Hkept Hin. rewrite Heq.
    now apply (materializeFiltersList_keeps L _ kept).
  - split; [now rewrite materializeFiltersList_logged_value|].
    split; [now apply failed_expression_warns|].
    rewrite dispatchLoop_step. cbn [Filters Trigger_Target].
    fold L. now rewrite Heq.
Qed.

Lemma materializeFiltersList_skips_failed_witness :
  materializeFiltersList sample.knative
    ([sample.exact "source" "s"] ++ sample.exact "" "x" :: [sample.exact "type" "ex.t"]) =
  materializeFiltersList sample.knative
    ([sample.exact "source" "s"] ++ [sample.exact "type" "ex.t"]).
Proof.
  apply (materializeFiltersList_skips_failed sample.world sample.manager
           [sample.exact "source" "s"] [sample.exact "type" "ex.t"]
           (sample.exact "" "x") "t" (mkTarget "http://ack" None) [] sample.event []).
  reflexivity.
Defined.

(** C4 (as stated) fails: of two expressions the first does not compile,
    and the list materialises to the second alone; a trigger carrying this
    list is not skipped by the dispatch loop, which evaluates the partial
    filter and delivers. *)
Lemma partial_filter_counterexample :
  let filters := [sample.exact "" "x"; sample.exact "type" "ex.t"] in
  materializeSubscriptionsAPIFilter sample.knative (sample.exact "" "x") = None
  /\ materializeFiltersList sample.knative filters = [exactFilter "type" "ex.t"]
  /\ List.length (materializeFiltersList sample.knative filters) <> List.length filters
  /\ requests (trace (dispatchLoop sample.world sample.manager
                        [("t", mkTrigger filters (mkTarget "http://ack" None))]
                        sample.event)) =
     [mkContext (Some "http://ack") None]
  /\ In (logger_Warn "Failed to parse filter. Skipping filter.")
        (trace (dispatchLoop sample.world sample.manager
                  [("t", mkTrigger filters (mkTarget "http://ack" None))]
                  sample.event)).
Proof.
  cbv zeta. repeat split; try reflexivity.
  - vm_compute. discriminate.
  - vm_compute. right. now left.
Qed.

Lemma materialize_Not_wraps_failed_child_witness :
  materializeSubscriptionsAPIFilter sample.knative (sample.not (sample.exact "" "x")) =
    Some (notFilter None)
  /\ materializeFiltersList sample.knative [sample.not (sample.exact "" "x")] =
     [notFilter None].
Proof.
  apply (materialize_Not_wraps_failed_child sample.knative (sample.exact "" "x") "").
  reflexivity.
Defined.

(** ** The broker supervisor *)

(** C8: [Start] calls backend.Init first; when Init fails it returns the
    wrapped error at once, with nothing spawned; when neither Init nor the
    watcher fails it spawns backend.Start, registers the ingest and the
    subscription-manager callbacks, starts the watcher, registers
    backend.Produce with ingest, spawns ingest.Start and waits for the
    group, in this order, and returns what the group returns.  Whatever
    fails, the calls made are an initial part of that sequence. *)
Theorem Start_order (A : broker.Answers) :
  (exists later, broker.Start_steps = (trace (broker.Start A) ++ later)%list)
  /\ (forall err,
        broker.Init_err A = Some err ->
        trace (broker.Start A) = [broker.backend_Init]
        /\ existsb broker.spawns (trace (broker.Start A)) = false
        /\ outcome (broker.Start A) =
           Returned (Some ("could not initialize backend: " ++ err)))
  /\ (broker.Init_err A = None ->
      broker.cwStart_err A = None ->
      trace (broker.Start A) =
        [ broker.backend_Init;
          broker.grp_Go broker.backend_Start;
          broker.cw_AddCallback broker.ingest_UpdateFromConfig;
          broker.cw_AddCallback broker.subscription_UpdateFromConfig;
          broker.cw_Start;
          broker.ingest_RegisterCloudEventHandler broker.backend_Produce;
          broker.grp_Go broker.ingest_Start;
          broker.grp_Wait ]
      /\ outcome (broker.Start A) = Returned (broker.Wait_err A)).
Proof.
  destruct A as [init cw wait].
  unfold trace, outcome, run, broker.Start, bind, call, ret; simpl.
  split; [|split].
  - destruct init as [e|]; simpl.
    + eexists; reflexivity.
    + destruct cw as [e|]; simpl; eexists; reflexivity.
  - intros err ->. simpl. repeat split.
  - intros -> ->. simpl. split; reflexivity.
Qed.

Lemma Start_order_witness :
  trace (broker.Start (broker.mkAnswers (Some "no such stream") None None)) =
    [broker.backend_Init]
  /\ outcome (broker.Start (broker.mkAnswers None None (Some "server closed"))) =
     Returned (Some "server closed").
Proof.
  split.
  - apply (Start_order (broker.mkAnswers (Some "no such stream") None None))
      with (err := "no such stream").
    reflexivity.
  - apply (Start_order (broker.mkAnswers None None (Some "server closed")));
      reflexivity.
Defined.

(** ** Delivery: [send] and [dispatchCloudEventToTarget] *)

Section Delivery.
Variable W : World.
Variable m : Manager.

(** An error log that names the target: the line is written when the
    target of the context is there, and the computation panics, with
    nothing written, when it is nil. *)
Lemma logError_run (ctx0 : Context) (msg : string) (lost : bool) (h : list Call) :
  logError W ctx0 msg lost h =
  match TargetFromContext (url_Parse W) ctx0 with
  | Some _ => ((h ++ [logger_Error msg lost])%list, Returned tt)
  | None => (h, Panicked (NilPointerDereference "cloudevents.TargetFromContext(ctx)"))
  end.
Proof.
  unfold logError, targetString, bind, call, ret, panic.
  now destruct (TargetFromContext (url_Parse W) ctx0).
Qed.

(** [send], case by case. *)
Lemma send_run (ctx0 : Context) (event : Event) (h : list Call) :
  send W m ctx0 event h =
  let h1 := (h ++ [ceClient_Request ctx0 event])%list in
  let (res, result) := ceClient_respond W h ctx0 event in
  if IsACK result then
    match res with
    | None => (h1, Returned true)
    | Some reply =>
        match ceHandler m with
        | None => (h1, Panicked (NilPointerDereference "m.ceHandler"))
        | Some handler =>
            match handler h1 ctx0 reply with
            | None => ((h1 ++ [ceHandler_call ctx0 reply])%list, Returned true)
            | Some _ =>
                ((h1 ++ [ceHandler_call ctx0 reply;
                         logger_Error "Failed to consume response from %s" false])%list,
                 Returned false)
            end
        end
    end
  else
    match TargetFromContext (url_Parse W) ctx0 with
    | Some _ => ((h1 ++ [logger_Error (failureMessage result) false])%list, Returned false)
    | None => (h1, Panicked (NilPointerDereference "cloudevents.TargetFromContext(ctx)"))
    end.
Proof.
  cbv zeta.
  pose proof (ceClient_ACK_has_target W h ctx0 event) as Hack.
  unfold send, bind, call, ret, history, panic, failureMessage.
  destruct (ceClient_respond W h ctx0 event) as [res result]. simpl in Hack.
  destruct (IsACK result).
  - destruct res as [reply|]; [|reflexivity].
    destruct (ceHandler m) as [handler|]; [|reflexivity].
    destruct (handler _ ctx0 reply); [|reflexivity].
    rewrite logError_run.
    destruct (TargetFromContext (url_Parse W) ctx0); [|now elim Hack].
    now rewrite <- app_assoc.
  - destruct (IsUndelivered result); [|destruct (IsNACK result)];
      rewrite logError_run;
      destruct (TargetFromContext (url_Parse W) ctx0); reflexivity.
Qed.

(** Every [send] starts with one request to the client, in the context it
    was given. *)
Lemma send_requests_first (ctx : Context) (event : Event) (h : list Call) :
  exists rest o,
    send W m ctx event h = ((h ++ ceClient_Request ctx event :: rest)%list, o).
Proof.
  rewrite send_run. cbv zeta.
  destruct (ceClient_respond W h ctx event) as [res result].
  destruct (IsACK result).
  - destruct res as [reply|]; [|now eexists; eexists].
    destruct (ceHandler m) as [handler|]; [|now eexists; eexists].
    destruct (handler _ ctx reply); rewrite <- ?app_assoc; simpl;
      now eexists; eexists.
  - destruct (TargetFromContext (url_Parse W) ctx);
      rewrite <- ?app_assoc; simpl; now eexists; eexists.
Qed.

(** The panics of [send]: the call of a nil handler, and the error log of
    a context without target. *)
Lemma send_panics (ctx : Context) (event : Event) (h : list Call) (p : Panic) :
  snd (send W m ctx event h) = Panicked p ->
  p = NilPointerDereference "m.ceHandler"
  \/ p = NilPointerDereference "cloudevents.TargetFromContext(ctx)".
Proof.
  rewrite send_run. cbv zeta.
  destruct (ceClient_respond W h ctx event) as [res result].
  destruct (IsACK result).
  - destruct res as [reply|]; [|discriminate].
    destruct (ceHandler m) as [handler|]; [|simpl; intros [= <-]; now left].
    destruct (handler _ ctx reply); discriminate.
  - destruct (TargetFromContext (url_Parse W) ctx); [discriminate|].
    simpl; intros [= <-]; now right.
Qed.

Lemma dispatch_after_send (target : Target) (event : Event)
      (h0 h h' : list Call) (ctx1 : Context) (ok : bool) :
  retryContext W m target h0 = (h, Returned ctx1) ->
  send W m ctx1 event h = (h', Returned ok) ->
  dispatchCloudEventToTarget W m target event h0 =
  if ok then (h', Returned tt) else deadLetter W m target event h'.
Proof.
  intros Hctx Hsend. unfold dispatchCloudEventToTarget, bind.
  rewrite Hctx, Hsend. now destruct ok.
Qed.

Lemma deadLetter_requests_first (target : Target) (event : Event) (url : string)
      (h : list Call) :
  deadLetterGuard target = Some url ->
  exists rest o,
    deadLetter W m target event h =
    ((h ++ ceClient_Request (ContextWithTarget (ctx m) url) event :: rest)%list, o).
Proof.
  intros Hurl. unfold deadLetter, bind. rewrite Hurl.
  destruct (send_requests_first (ContextWithTarget (ctx m) url) event h)
    as (rest & o & ->).
  destruct o as [[|]|p]; unfold ret.
  - now eexists; eexists.
  - rewrite logError_run.
    destruct (TargetFromContext (url_Parse W) (ContextWithTarget (ctx m) url)).
    + rewrite <- app_assoc. simpl. now eexists; eexists.
    + now eexists; eexists.
  - now eexists; eexists.
Qed.

Lemma deadLetter_extends (target : Target) (event : Event) (h : list Call) :
  exists added o, deadLetter W m target event h = ((h ++ added)%list, o).
Proof.
  destruct (deadLetterGuard target) as [url|] eqn:Hurl.
  - destruct (deadLetter_requests_first target event url h Hurl) as (rest & o & ->).
    now eexists; eexists.
  - unfold deadLetter. rewrite Hurl, logError_run.
    destruct (TargetFromContext (url_Parse W) (ContextWithTarget (ctx m) (URL target))).
    + now eexists; eexists.
    + exists [], (Panicked (NilPointerDereference "cloudevents.TargetFromContext(ctx)")).
      now rewrite app_nil_r.
Qed.

(** The panics of the dead-letter stage are those of its send and of its
    last log. *)
Lemma deadLetter_panics (target : Target) (event : Event) (h : list Call) (p : Panic) :
  snd (deadLetter W m target event h) = Panicked p ->
  p = NilPointerDereference "m.ceHandler"
  \/ p = NilPointerDereference "cloudevents.TargetFromContext(ctx)".
Proof.
  unfold deadLetter, bind.
  destruct (deadLetterGuard target) as [url|].
  - destruct (send W m (ContextWithTarget (ctx m) url) event h) as [h1 [[|]|q]] eqn:Hs.
    + discriminate.
    + rewrite logError_run.
      destruct (TargetFromContext (url_Parse W) (ContextWithTarget (ctx m) url));
        [discriminate|]. simpl; intros [= <-]; now right.
    + simpl. intros [= <-].
      apply (send_panics (ContextWithTarget (ctx m) url) event h). now rewrite Hs.
  - rewrite logError_run.
    destruct (TargetFromContext (url_Parse W) (ContextWithTarget (ctx m) (URL target)));
      [discriminate|]. simpl; intros [= <-]; now right.
Qed.

(** C6: when the result of the request is an ACK, [send] succeeds if there
    is no reply event, or if the registered handler accepts the reply it
    is handed; if the handler returns an error, [send] returns false, and
    a dispatch whose primary send this is goes on to the dead-letter
    stage, which requests the dead-letter URL when one is set. *)
Theorem send_ACK_and_reply (ctx1 : Context) (event : Event) (h : list Call)
        (res : option Event) (result : Result) :
  ceClient_respond W h ctx1 event = (res, result) ->
  IsACK result = true ->
  let h1 := (h ++ [ceClient_Request ctx1 event])%list in
  (res = None -> send W m ctx1 event h = (h1, Returned true))
  /\ (forall reply handler,
        res = Some reply -> ceHandler m = Some handler ->
        handler h1 ctx1 reply = None ->
        send W m ctx1 event h =
        ((h1 ++ [ceHandler_call ctx1 reply])%list, Returned true))
  /\ (forall reply handler err,
        res = Some reply -> ceHandler m = Some handler ->
        handler h1 ctx1 reply = Some err ->
        let h2 := (h1 ++ [ceHandler_call ctx1 reply;
                          logger_Error "Failed to consume response from %s" false])%list in
        send W m ctx1 event h = (h2, Returned false)
        /\ forall target h0,
             retryContext W m target h0 = (h, Returned ctx1) ->
             dispatchCloudEventToTarget W m target event h0 =
               deadLetter W m target event h2
             /\ forall url,
                  deadLetterGuard target = Some url ->
                  exists rest o,
                    dispatchCloudEventToTarget W m target event h0 =
                    ((h2 ++ ceClient_Request (ContextWithTarget (ctx m) url) event
                         :: rest)%list, o)).
Proof.
  intros Hres Hack h1.
  pose proof (send_run ctx1 event h) as Hrun. cbv zeta in Hrun.
  rewrite Hres, Hack in Hrun. fold h1 in Hrun.
  assert (Hok : forall reply handler,
             res = Some reply -> ceHandler m = Some handler ->
             handler h1 ctx1 reply = None ->
             send W m ctx1 event h =
             ((h1 ++ [ceHandler_call ctx1 reply])%list, Returned true)).
  { intros reply handler Hreply Hh Hnone.
    now rewrite Hrun, Hreply, Hh, Hnone. }
  assert (Herr : forall reply handler err,
             res = Some reply -> ceHandler m = Some handler ->
             handler h1 ctx1 reply = Some err ->
             send W m ctx1 event h =
             ((h1 ++ [ceHandler_call ctx1 reply;
                      logger_Error "Failed to consume response from %s" false])%list,
              Returned false)).
  { intros reply handler err Hreply Hh Hsome.
    now rewrite Hrun, Hreply, Hh, Hsome. }
  split; [|split].
  - intros Hnone. now rewrite Hrun, Hnone.
  - exact Hok.
  - intros reply handler err Hreply Hh Hsome h2.
    pose proof (Herr reply handler err Hreply Hh Hsome) as Hsend. fold h2 in Hsend.
    split; [exact Hsend|].
    intros target h0 Hctx.
    pose proof (dispatch_after_send target event h0 h h2 ctx1 false Hctx Hsend) as Hd.
    simpl in Hd. split; [exact Hd|].
    intros url Hurl. rewrite Hd.
    now apply deadLetter_requests_first.
Qed.

Lemma TargetFromContext_ContextWithTarget (ctx0 : Context) (url : string) :
  TargetFromContext (url_Parse W) (ContextWithTarget ctx0 url) =
  if String.eqb url "" then None else if url_Parse W url then Some url else None.
Proof.
  reflexivity.
Qed.

Lemma TargetFromContext_withRetries (ctx0 : Context) (policy : BackoffPolicyType)
      (delay retry : Z) :
  TargetFromContext (url_Parse W) (withRetries ctx0 policy delay retry) =
  TargetFromContext (url_Parse W) ctx0.
Proof.
  unfold withRetries.
  destruct (String.eqb policy BackoffPolicyLinear); [reflexivity|].
  destruct (String.eqb policy BackoffPolicyExponential); reflexivity.
Qed.

Lemma retryContext_unparseable (target : Target) (h : list Call)
      (opts : DeliveryOptions) (retry : Z) (policy : BackoffPolicyType)
      (s : string) (delay : Z) (err : string) :
  retryGuard target = Some (opts, retry, policy) ->
  BackoffDelay opts = Some s ->
  period_Parse W s = (delay, Some err) ->
  retryContext W m target h =
  match TargetFromContext (url_Parse W) (ContextWithTarget (ctx m) (URL target)) with
  | Some _ =>
      ((h ++ [logger_Error
                "Event was lost while sending to %s due to backoff delay parsing" true])%list,
       Returned (withRetries (ContextWithTarget (ctx m) (URL target)) policy delay retry))
  | None => (h, Panicked (NilPointerDereference "cloudevents.TargetFromContext(ctx)"))
  end.
Proof.
  intros Hguard Hdelay Hparse. unfold retryContext.
  rewrite Hguard, Hdelay, Hparse. unfold bind. rewrite logError_run.
  now destruct (TargetFromContext (url_Parse W) (ContextWithTarget (ctx m) (URL target))).
Qed.

(** C2: when the retry branch is taken and the backoff delay does not
    parse, the code logs the event as lost and goes on: the request to the
    target is made all the same, with the delay [period.Parse] returned
    beside its error.  (The log names the target: with a target URL that
    is empty or that url.Parse rejects, the dispatch panics there instead,
    before anything is logged or sent.) *)
Theorem unparseable_backoff_still_sends (target : Target) (event : Event)
        (h : list Call) (opts : DeliveryOptions) (retry : Z)
        (policy : BackoffPolicyType) (s : string) (delay : Z) (err : string) :
  retryGuard target = Some (opts, retry, policy) ->
  BackoffDelay opts = Some s ->
  period_Parse W s = (delay, Some err) ->
  (URL target <> "" -> url_Parse W (URL target) = true ->
   exists rest o,
     dispatchCloudEventToTarget W m target event h =
     ((h ++ [logger_Error
               "Event was lost while sending to %s due to backoff delay parsing" true;
             ceClient_Request
               (withRetries (ContextWithTarget (ctx m) (URL target)) policy delay retry)
               event] ++ rest)%list, o))
  /\ (URL target = "" \/ url_Parse W (URL target) = false ->
      dispatchCloudEventToTarget W m target event h =
      (h, Panicked (NilPointerDereference "cloudevents.TargetFromContext(ctx)"))).
Proof.
  intros Hguard Hdelay Hparse.
  unfold dispatchCloudEventToTarget, bind.
  rewrite (retryContext_unparseable target h opts retry policy s delay err
             Hguard Hdelay Hparse).
  rewrite TargetFromContext_ContextWithTarget.
  split.
  - intros Hne Hurl. destruct (String.eqb_spec (URL target) ""); [contradiction|].
    rewrite Hurl.
    set (ctx1 := withRetries _ policy delay retry).
    destruct (send_requests_first ctx1 event
                (h ++ [logger_Error
                         "Event was lost while sending to %s due to backoff delay parsing"
                         true])) as (rest & o & Hsend).
    rewrite Hsend, <- app_assoc. simpl.
    destruct o as [[|]|p].
    + now eexists; eexists.
    + destruct (deadLetter_extends target event
                  (h ++ logger_Error
                          "Event was lost while sending to %s due to backoff delay parsing"
                          true :: ceClient_Request ctx1 event :: rest))
        as (added & o' & ->).
      rewrite <- app_assoc. simpl. now eexists; eexists.
    + now eexists; eexists.
  - intros [Hempty|Hurl].
    + rewrite Hempty. reflexivity.
    + rewrite Hurl. now destruct (String.eqb (URL target) "").
Qed.

(** C3 (as amended): when the primary send returns false and a non-empty
    dead-letter URL is set, the same event is requested at that URL in a
    context rebuilt from the manager's own context: it carries the
    dead-letter URL and the retry parameters of the manager's context,
    not those attached for the primary send; the manager's context being
    the background context, it carries no retry policy. *)
Theorem deadLetter_without_retry_policy (target : Target) (event : Event)
        (url : string) (h0 h h' : list Call) (ctx1 : Context) :
  ctx m = Background ->
  deadLetterGuard target = Some url ->
  retryContext W m target h0 = (h, Returned ctx1) ->
  send W m ctx1 event h = (h', Returned false) ->
  exists rest o,
    dispatchCloudEventToTarget W m target event h0 =
    ((h' ++ ceClient_Request (mkContext (Some url) None) event :: rest)%list, o).
Proof.
  intros Hbg Hurl Hctx Hsend.
  rewrite (dispatch_after_send target event h0 h h' ctx1 false Hctx Hsend).
  destruct (deadLetter_requests_first target event url h' Hurl) as (rest & o & ->).
  rewrite Hbg. now eexists; eexists.
Qed.

(** The panic of the retry branch on BackoffDelay happens exactly when the
    guard holds and BackoffDelay is nil, before any call. *)
Lemma retryContext_panics (target : Target) (h : list Call) :
  snd (retryContext W m target h) =
    Panicked (NilPointerDereference "target.DeliveryOptions.BackoffDelay") <->
  exists opts retry policy,
    retryGuard target = Some (opts, retry, policy) /\ BackoffDelay opts = None.
Proof.
  unfold retryContext.
  destruct (retryGuard target) as [[[opts retry] policy]|].
  - destruct (BackoffDelay opts) as [s|] eqn:Hs.
    + split.
      * unfold bind, ret.
        destruct (period_Parse W s) as [delay [err|]]; [|discriminate].
        rewrite logError_run.
        destruct (TargetFromContext (url_Parse W) _); discriminate.
      * intros (o & r & q & Heq & Hnone). injection Heq as -> _ _. congruence.
    + unfold panic; simpl. split; [|reflexivity].
      intros _. now exists opts, retry, policy.
  - unfold ret; simpl. split; [discriminate|].
    intros (o & r & q & Heq & _). discriminate.
Qed.

Lemma retryGuard_Some (target : Target) (opts : DeliveryOptions) (retry : Z)
      (policy : BackoffPolicyType) :
  retryGuard target = Some (opts, retry, policy) <->
  Target_DeliveryOptions target = Some opts /\ Retry opts = Some retry
  /\ (1 <= retry)%Z /\ BackoffPolicy opts = Some policy.
Proof.
  unfold retryGuard.
  destruct (Target_DeliveryOptions target) as [o|]; [|split; [discriminate|]; now intros [? _]].
  destruct (Retry o) as [r|] eqn:Hr.
  - destruct (Z.leb_spec 1 r) as [Hle|Hlt].
    + destruct (BackoffPolicy o) as [q|] eqn:Hq.
      * split.
        -- intros [= <- <- <-]. auto.
        -- intros ([= <-] & Hr' & _ & Hq'). congruence.
      * split; [discriminate|]. intros ([= <-] & _ & _ & Hq'). congruence.
    + split; [discriminate|]. intros ([= <-] & Hr' & Hle & _).
      assert (r = retry) by congruence. lia.
  - split; [discriminate|]. intros ([= <-] & Hr' & _). congruence.
Qed.

(** C10: the dispatch does not panic on the dereference of BackoffDelay
    exactly when the precondition holds; without it the dereference,
    which has no nil check of its own, panics before any call is made. *)
Theorem BackoffDelay_dereference (target : Target) (event : Event) (h : list Call) :
  (backoffDelayPrecondition target <->
   snd (dispatchCloudEventToTarget W m target event h) <>
     Panicked (NilPointerDereference "target.DeliveryOptions.BackoffDelay"))
  /\ (~ backoffDelayPrecondition target ->
      dispatchCloudEventToTarget W m target event h =
      (h, Panicked (NilPointerDereference "target.DeliveryOptions.BackoffDelay"))).
Proof.
  assert (Hpanic : (exists opts retry policy,
                       retryGuard target = Some (opts, retry, policy)
                       /\ BackoffDelay opts = None) ->
                   dispatchCloudEventToTarget W m target event h =
                   (h, Panicked
                         (NilPointerDereference "target.DeliveryOptions.BackoffDelay"))).
  { intros (opts & retry & policy & Hg & Hnone).
    unfold dispatchCloudEventToTarget, retryContext, bind, panic.
    now rewrite Hg, Hnone. }
  assert (Hdec : backoffDelayPrecondition target \/
                 exists opts retry policy,
                   retryGuard target = Some (opts, retry, policy)
                   /\ BackoffDelay opts = None).
  { destruct (retryGuard target) as [[[opts retry] policy]|] eqn:Hg.
    - destruct (BackoffDelay opts) as [s|] eqn:Hs.
      + left. intros o r q Ho Hr Hle Hq.
        assert (Hg' : retryGuard target = Some (o, r, q))
          by (apply retryGuard_Some; auto).
        rewrite Hg in Hg'. injection Hg' as <- <- <-. congruence.
      + right. now exists opts, retry, policy.
    - left. intros o r q Ho Hr Hle Hq.
      assert (Hg' : retryGuard target = Some (o, r, q))
        by (apply retryGuard_Some; auto).
      congruence. }
  assert (Hnot : (exists opts retry policy,
                     retryGuard target = Some (opts, retry, policy)
                     /\ BackoffDelay opts = None) ->
                 ~ backoffDelayPrecondition target).
  { intros (opts & retry & policy & Hg & Hnone) Hpre.
    apply retryGuard_Some in Hg. destruct Hg as (Ho & Hr & Hle & Hq).
    exact (Hpre opts retry policy Ho Hr Hle Hq Hnone). }
  split; [split|].
  - intros Hpre Heq.
    unfold dispatchCloudEventToTarget, bind in Heq.
    destruct (retryContext W m target h) as [h1 [ctx1|p]] eqn:Hctx.
    + destruct (send W m ctx1 event h1) as [h2 [ok|p]] eqn:Hsend.
      * destruct ok; [discriminate|].
        destruct (deadLetter_panics target event h2 _ Heq); discriminate.
      * simpl in Heq. injection Heq as ->.
        assert (Hs : snd (send W m ctx1 event h1) =
                     Panicked (NilPointerDereference "target.DeliveryOptions.BackoffDelay"))
          by now rewrite Hsend.
        destruct (send_panics ctx1 event h1 _ Hs); discriminate.
    + simpl in Heq. injection Heq as ->.
      assert (Hp : snd (retryContext W m target h) =
                   Panicked (NilPointerDereference "target.DeliveryOptions.BackoffDelay"))
        by now rewrite Hctx.
      apply retryContext_panics in Hp. exact (Hnot Hp Hpre).
  - intros Hsafe. destruct Hdec as [Hpre|Hbad]; [exact Hpre|].
    exfalso. apply Hsafe. now rewrite (Hpanic Hbad).
  - intros Hnpre. destruct Hdec as [Hpre|Hbad]; [contradiction|].
    exact (Hpanic Hbad).
Qed.

End Delivery.

Lemma send_ACK_and_reply_witness :
  let m := RegisterCloudEventHandler sample.manager sample.produceFails in
  let ctx1 := mkContext (Some "http://reply") None in
  send sample.world m ctx1 sample.event [] =
  ([ceClient_Request ctx1 sample.event;
    ceHandler_call ctx1 sample.reply;
    logger_Error "Failed to consume response from %s" false], Returned false).
Proof.
  intros m ctx1.
  pose proof (send_ACK_and_reply sample.world m ctx1 sample.event []
                (Some sample.reply) (mkResult true false false)
                eq_refl eq_refl) as H.
  apply proj2, proj2 in H.
  apply (H sample.reply sample.produceFails "backend unavailable"
           eq_refl eq_refl eq_refl).
Defined.

Lemma unparseable_backoff_still_sends_witness :
  exists rest o,
    dispatchCloudEventToTarget sample.world sample.manager
      (mkTarget "http://ack" (Some (sample.options 3 "linear" "soon" None)))
      sample.event [] =
    (([] ++ [logger_Error
               "Event was lost while sending to %s due to backoff delay parsing" true;
             ceClient_Request
               (mkContext (Some "http://ack")
                          (Some (mkRetryParams BackoffStrategyLinear 0 3)))
               sample.event] ++ rest)%list, o).
Proof.
  apply (unparseable_backoff_still_sends sample.world sample.manager
           (mkTarget "http://ack" (Some (sample.options 3 "linear" "soon" None)))
           sample.event [] (sample.options 3 "linear" "soon" None) 3 "linear"
           "soon" 0 "expected 'P' period mark at the start");
    try reflexivity.
  discriminate.
Defined.

(** C3 (as stated) fails: the primary send carries three linear retries one
    second apart, the dead-letter send of the same dispatch carries none. *)
Lemma deadLetter_retry_policy_counterexample :
  let target :=
    mkTarget "http://down"
             (Some (sample.options 3 "linear" "PT1S" (Some "http://ack"))) in
  let primary :=
    mkContext (Some "http://down")
              (Some (mkRetryParams BackoffStrategyLinear 1000000000 3)) in
  let deadLetter := mkContext (Some "http://ack") None in
  requests (trace (dispatchCloudEventToTarget sample.world sample.manager
                     target sample.event)) = [primary; deadLetter]
  /\ ctxRetries deadLetter <> ctxRetries primary.
Proof.
  cbv zeta. split; [reflexivity|discriminate].
Qed.

Lemma deadLetter_without_retry_policy_witness :
  let target :=
    mkTarget "http://down"
             (Some (sample.options 3 "linear" "PT1S" (Some "http://ack"))) in
  let primary :=
    mkContext (Some "http://down")
              (Some (mkRetryParams BackoffStrategyLinear 1000000000 3)) in
  exists rest o,
    dispatchCloudEventToTarget sample.world sample.manager target sample.event [] =
    (([ceClient_Request primary sample.event;
       logger_Error "Failed to send event to %s" false]
        ++ ceClient_Request (mkContext (Some "http://ack") None) sample.event :: rest)%list,
     o).
Proof.
  intros target primary.
  apply (deadLetter_without_retry_policy sample.world sample.manager target
           sample.event "http://ack" [] [] _ primary); reflexivity.
Defined.

Lemma BackoffDelay_dereference_witness :
  let unguarded :=
    mkTarget "http://ack"
             (Some {| Retry := Some 1%Z; BackoffPolicy := Some "constant";
                      BackoffDelay := None; DeadLetterURL := None |}) in
  dispatchCloudEventToTarget sample.world sample.manager unguarded sample.event [] =
  ([], Panicked (NilPointerDereference "target.DeliveryOptions.BackoffDelay")).
Proof.
  intros unguarded.
  apply (BackoffDelay_dereference sample.world sample.manager unguarded sample.event []).
  intros Hpre.
  apply (Hpre {| Retry := Some 1%Z; BackoffPolicy := Some "constant";
                 BackoffDelay := None; DeadLetterURL := None |}
              1%Z "constant" eq_refl eq_refl ltac:(lia) eq_refl eq_refl).
Defined.

(** ** Reconciliation: [UpdateFromConfig] *)

Section MapLemmas.
Context {V : Type}.

Lemma lookup_store (n k : string) (v : V) (m : list (string * V)) :
  lookup n (store k v m) = if String.eqb n k then Some v else lookup n m.
Proof.
  induction m as [|[k' v'] rest IH]; simpl.
  - destruct (String.eqb_spec n k); reflexivity.
  - destruct (String.eqb_spec k k') as [<-|Hkk']; simpl.
    + now destruct (String.eqb n k).
    + rewrite IH. destruct (String.eqb_spec n k) as [->|Hnk].
      * destruct (String.eqb_spec k k'); [contradiction|reflexivity].
      * reflexivity.
Qed.

Lemma lookup_delete_other (n k : string) (m : list (string * V)) :
  n <> k -> lookup n (delete k m) = lookup n m.
Proof.
  intros Hnk. induction m as [|[k' v'] rest IH]; simpl; [reflexivity|].
  destruct (String.eqb_spec k k') as [<-|Hkk']; simpl.
  - rewrite IH. destruct (String.eqb_spec n k); [contradiction|reflexivity].
  - now rewrite IH.
Qed.

Lemma lookup_store_defined (n k : string) (v : V) (m : list (string * V)) :
  lookup n m <> None -> lookup n (store k v m) <> None.
Proof.
  rewrite lookup_store. now destruct (String.eqb n k).
Qed.

End MapLemmas.

Section Reconciliation.
Variable W : World.

(** The removal pass returns; it calls nothing but [Unsubscribe], on the
    names of visited subscribers whose key is not in the snapshot, and it
    keeps every entry whose key is in the snapshot. *)
Lemma removalPass_spec (c : Config) (entries : list (string * subscriber)) :
  forall (subs : list (string * subscriber)) (h : list Call),
  exists added subs',
    removalPass c entries subs h = ((h ++ added)%list, Returned subs')
    /\ Forall (fun call =>
                 exists k sub, In (k, sub) entries
                               /\ lookup k (Triggers c) = None
                               /\ call = backend_Unsubscribe (name sub)) added
    /\ forall n, lookup n (Triggers c) <> None -> lookup n subs' = lookup n subs.
Proof.
  induction entries as [|[k sub] rest IH]; intros subs h; simpl.
  - exists [], subs. unfold ret. rewrite app_nil_r. auto.
  - destruct (lookup k (Triggers c)) as [t|] eqn:Hk.
    + destruct (IH subs h) as (added & subs' & Heq & Hall & Hkeep).
      exists added, subs'. split; [exact Heq|]. split; [|exact Hkeep].
      eapply Forall_impl; [|exact Hall].
      intros call (k' & sub' & Hin & Hnone & ->). exists k', sub'. simpl. auto.
    + unfold bind, unsubscribe, call.
      destruct (IH (delete k subs) (h ++ [backend_Unsubscribe (name sub)])%list)
        as (added & subs' & Heq & Hall & Hkeep).
      exists (backend_Unsubscribe (name sub) :: added), subs'.
      rewrite Heq, <- app_assoc. split; [reflexivity|]. split.
      * constructor.
        -- exists k, sub. simpl. auto.
        -- eapply Forall_impl; [|exact Hall].
           intros call (k' & sub' & Hin & Hnone & ->). exists k', sub'. simpl. auto.
      * intros n Hn. rewrite (Hkeep n Hn). apply lookup_delete_other.
        intros ->. contradiction.
Qed.

(** The add/update pass returns; it calls the logger and [Subscribe], the
    latter only on names absent from the table it started from, and it
    removes no entry. *)
Lemma updatePass_spec (entries : list (string * Trigger)) :
  forall (subs : list (string * subscriber)) (h : list Call),
  exists added subs',
    updatePass W entries subs h = ((h ++ added)%list, Returned subs')
    /\ Forall (fun call =>
                 isRequest call = false
                 /\ (forall n, call <> backend_Unsubscribe n)
                 /\ (forall n, call = backend_Subscribe n -> lookup n subs = None)) added
    /\ forall n, lookup n subs <> None -> lookup n subs' <> None.
Proof.
  induction entries as [|[n trg] rest IH]; intros subs h; simpl.
  - exists [], subs. unfold ret. rewrite app_nil_r. auto.
  - assert (Hweaken : forall s' added0,
               Forall (fun call =>
                 isRequest call = false
                 /\ (forall n, call <> backend_Unsubscribe n)
                 /\ (forall k, call = backend_Subscribe k ->
                               lookup k (store n s' subs) = None)) added0 ->
               Forall (fun call =>
                 isRequest call = false
                 /\ (forall n, call <> backend_Unsubscribe n)
                 /\ (forall k, call = backend_Subscribe k -> lookup k subs = None)) added0).
    { intros s' added0 Hall. eapply Forall_impl; [|exact Hall].
      intros call (Hreq & Hun & Hsub). repeat split; auto.
      intros k Hk. specialize (Hsub k Hk).
      destruct (lookup k subs) eqn:Hl; [|reflexivity].
      exfalso. apply (lookup_store_defined k n s' subs); [congruence|exact Hsub]. }
    destruct (lookup n subs) as [s|] eqn:Hn.
    + destruct (DeepEqual W (trigger s) trg).
      * apply IH.
      * unfold bind at 1. unfold call at 1.
        destruct (updateTrigger W s trg) as [s' [err|]].
        -- unfold bind, call, ret. rewrite <- app_assoc. simpl.
           eexists; eexists. split; [reflexivity|]. split.
           ++ repeat constructor; intros; discriminate.
           ++ intros k. apply lookup_store_defined.
        -- destruct (IH (store n s' subs)
                        (h ++ [logger_Info "Updating trigger configuration"])%list)
             as (added & subs' & Heq & Hall & Hkeep).
           rewrite Heq, <- app_assoc. simpl.
           eexists; eexists. split; [reflexivity|]. split.
           ++ constructor; [repeat split; intros; discriminate|].
              now apply (Hweaken s').
           ++ intros k Hk. apply Hkeep. now apply lookup_store_defined.
    + destruct (updateTrigger W (newSubscriber n) trg) as [s' [err|]].
      * unfold bind, call, ret.
        eexists; eexists. split; [reflexivity|]. split.
        -- repeat constructor; intros; discriminate.
        -- auto.
      * unfold bind at 1. unfold call at 1.
        destruct (IH (store n s' subs) (h ++ [backend_Subscribe n])%list)
          as (added & subs' & Heq & Hall & Hkeep).
        rewrite Heq, <- app_assoc. simpl.
        eexists; eexists. split; [reflexivity|]. split.
        -- constructor.
           ++ repeat split; [intros; discriminate|]. now intros k [= <-].
           ++ now apply (Hweaken s').
        -- intros k Hk. apply Hkeep. now apply lookup_store_defined.
Qed.

(** [UpdateFromConfig] returns, writes no field but [subscribers], and
    makes no request to the delivery client. *)
Lemma UpdateFromConfig_spec (m : Manager) (c : Config) (h : list Call) :
  exists added m',
    UpdateFromConfig W m c h = ((h ++ added)%list, Returned m')
    /\ existsb isRequest added = false
    /\ triggers m' = triggers m /\ ctx m' = ctx m /\ ceHandler m' = ceHandler m.
Proof.
  unfold UpdateFromConfig, bind.
  destruct (removalPass_spec c (subscribers m) (subscribers m) h)
    as (added1 & subs1 & -> & Hall1 & _).
  destruct (updatePass_spec (Triggers c) subs1 (h ++ added1)%list)
    as (added2 & subs2 & -> & Hall2 & _).
  exists (added1 ++ added2)%list, (with_subscribers m subs2).
  unfold ret. rewrite app_assoc. split; [reflexivity|]. split; [|auto].
  rewrite existsb_app. apply orb_false_intro.
  - clear -Hall1. induction Hall1 as [|call l (k & sub & _ & _ & ->) _ IH]; simpl; auto.
  - clear -Hall2. induction Hall2 as [|call l (Hreq & _) _ IH]; simpl; auto.
    now rewrite Hreq.
Qed.

End Reconciliation.

(** C1: a trigger that cannot be set up ends the reconciliation: the error
    branches [return], so the entries of the snapshot that the loop has not
    visited yet are not reconciled. *)
Theorem failed_trigger_ends_reconciliation
        (W : World) (n : string) (trg : Trigger) (rest : list (string * Trigger))
        (s' : subscriber) (err : string) :
  updateTrigger W (newSubscriber n) trg = (s', Some err) ->
  (forall subs h,
      lookup n subs = None ->
      updatePass W ((n, trg) :: rest) subs h =
      ((h ++ [logger_Error "Could not setup trigger" false])%list, Returned subs))
  /\ forall m h,
       subscribers m = [] ->
       UpdateFromConfig W m (mkConfig ((n, trg) :: rest)) h =
       ((h ++ [logger_Error "Could not setup trigger" false])%list, Returned m).
Proof.
  intros Hfail.
  assert (Hloop : forall subs h,
             lookup n subs = None ->
             updatePass W ((n, trg) :: rest) subs h =
             ((h ++ [logger_Error "Could not setup trigger" false])%list, Returned subs)).
  { intros subs h Hn. simpl. now rewrite Hn, Hfail. }
  split; [exact Hloop|].
  intros [handler trs subs c] h Hempty. simpl in Hempty. subst subs.
  unfold UpdateFromConfig, bind. simpl removalPass. unfold ret at 1.
  cbn [Triggers]. now rewrite Hloop.
Qed.

(** The failing input of C1: of two triggers the first visited has a
    backoff delay that does not parse; the second, valid, is never
    subscribed.  Visited in the other order, it is. *)
Lemma failed_trigger_ends_reconciliation_witness :
  UpdateFromConfig sample.world sample.manager
    (mkConfig [("a", sample.badTrigger); ("b", sample.goodTrigger)]) [] =
  (([] ++ [logger_Error "Could not setup trigger" false])%list, Returned sample.manager).
Proof.
  apply (failed_trigger_ends_reconciliation sample.world "a" sample.badTrigger
           [("b", sample.goodTrigger)] (newSubscriber "a")
           "expected 'P' period mark at the start");
    reflexivity.
Defined.

Lemma reconciliation_depends_on_order :
  trace (UpdateFromConfig sample.world sample.manager
           (mkConfig [("a", sample.badTrigger); ("b", sample.goodTrigger)])) =
    [logger_Error "Could not setup trigger" false]
  /\ trace (UpdateFromConfig sample.world sample.manager
              (mkConfig [("b", sample.goodTrigger); ("a", sample.badTrigger)])) =
     [backend_Subscribe "b"; logger_Error "Could not setup trigger" false].
Proof.
  split; reflexivity.
Qed.


(** C5: no operation of the manager writes [triggers] after [New]: after
    any sequence of operations the map is still the empty one [New] left,
    no request has been made to the delivery client, and
    [DispatchCloudEvent] returns without a call. *)
Theorem triggers_never_written
        (W : World) (newHTTP_err newClient_err : option string)
        (m0 : Manager) (ops : list Op) :
  New newHTTP_err newClient_err = inl m0 ->
  exists m,
    outcome (steps W m0 ops) = Returned m
    /\ triggers m = []
    /\ existsb isRequest (trace (steps W m0 ops)) = false
    /\ forall event h, DispatchCloudEvent W m event h = (h, Returned tt).
Proof.
  intros HNew.
  assert (H0 : triggers m0 = []).
  { unfold New in HNew.
    destruct newHTTP_err; [discriminate|]. destruct newClient_err; [discriminate|].
    now injection HNew as <-. }
  clear HNew.
  assert (Hgen : forall ops m h,
             triggers m = [] ->
             exists added m',
               steps W m ops h = ((h ++ added)%list, Returned m')
               /\ triggers m' = [] /\ existsb isRequest added = false).
  { clear. induction ops as [|op rest IH]; intros m h Hm; simpl.
    - exists [], m. unfold ret. now rewrite app_nil_r.
    - unfold bind.
      assert (Hstep : exists added1 m1,
                 step W m op h = ((h ++ added1)%list, Returned m1)
                 /\ triggers m1 = [] /\ existsb isRequest added1 = false).
      { destruct op as [c|handler|event]; simpl.
        - destruct (UpdateFromConfig_spec W m c h)
            as (added1 & m1 & Heq & Hreq & Htr & _).
          exists added1, m1. rewrite Htr. auto.
        - exists [], (RegisterCloudEventHandler m handler).
          unfold ret. now rewrite app_nil_r.
        - exists [], m. unfold bind, DispatchCloudEvent. rewrite Hm. simpl.
          unfold ret. now rewrite app_nil_r. }
      destruct Hstep as (added1 & m1 & -> & Hm1 & Hreq1).
      destruct (IH m1 (h ++ added1)%list Hm1) as (added2 & m2 & -> & Hm2 & Hreq2).
      exists (added1 ++ added2)%list, m2. rewrite app_assoc.
      split; [reflexivity|]. split; [exact Hm2|].
      rewrite existsb_app, Hreq1, Hreq2. reflexivity. }
  destruct (Hgen ops m0 [] H0) as (added & m & Heq & Hm & Hreq).
  exists m. unfold outcome, trace, run. rewrite Heq. simpl.
  repeat split; auto.
  intros event h. unfold DispatchCloudEvent. now rewrite Hm.
Qed.

Lemma triggers_never_written_witness :
  let fresh := {| ceHandler := None; triggers := []; subscribers := [];
                  ctx := Background |} in
  let ops := [OpRegisterCloudEventHandler sample.produce;
              OpUpdateFromConfig (mkConfig [("b", sample.goodTrigger)]);
              OpDispatchCloudEvent sample.event] in
  New None None = inl fresh
  /\ exists m,
       outcome (steps sample.world fresh ops) = Returned m
       /\ triggers m = []
       /\ existsb isRequest (trace (steps sample.world fresh ops)) = false
       /\ forall event h, DispatchCloudEvent sample.world m event h = (h, Returned tt).
Proof.
  intros fresh ops. split; [reflexivity|].
  apply (triggers_never_written sample.world None None fresh ops).
  reflexivity.
Defined.

(** * Further properties of the code *)

(** ** Filter materialisation *)

Section MaterialisationMore.
Variable L : Library.

Lemma rangeLeaf_spec (new : string -> string -> option Filter)
      (entries : list (string * string)) :
  forall acc : option Filter,
    rangeLeaf new entries acc =
    match entries with
    | [] => acc
    | _ :: _ =>
        if forallb (fun e => match new (fst e) (snd e) with
                             | Some _ => true | None => false end) entries
        then new (fst (last entries ("", ""))) (snd (last entries ("", "")))
        else None
    end.
Proof.
  induction entries as [|[a v] rest IH]; intros acc; [reflexivity|].
  cbn [rangeLeaf forallb fst snd].
  destruct (new a v) as [f|] eqn:Hnew; [|reflexivity].
  rewrite IH. destruct rest as [|e rest']; [|reflexivity].
  cbn. now rewrite Hnew.
Qed.

Lemma materializeFiltersList_In (filters : list SubscriptionsAPIFilter) (f' : Filter) :
  In f' (materializeFiltersList L filters) <->
  exists f, In f filters /\ materializeSubscriptionsAPIFilter L f = Some f'.
Proof.
  induction filters as [|x rest IH].
  - split; [contradiction|]. intros (f & [] & _).
  - rewrite materializeFiltersList_cons.
    destruct (materializeSubscriptionsAPIFilter L x) as [x'|] eqn:Hx.
    + simpl. rewrite IH. split.
      * intros [<-|(f & Hin & Hf)]; [exists x; auto|exists f; auto].
      * intros (f & [<-|Hin] & Hf); [left; congruence|right; exists f; auto].
    + rewrite IH. split.
      * intros (f & Hin & Hf). exists f. simpl; auto.
      * intros (f & [<-|Hin] & Hf); [congruence|exists f; auto].
Qed.

(** X1: [materializeFiltersList] invents nothing and loses nothing that
    compiles: a filter is in its result exactly when it is the
    materialisation of an expression of the list; so the result is never
    longer than the list. *)
Theorem materializeFiltersList_members (filters : list SubscriptionsAPIFilter) :
  (List.length (materializeFiltersList L filters) <= List.length filters)%nat
  /\ forall f' : Filter,
       In f' (materializeFiltersList L filters) <->
       exists f, In f filters /\ materializeSubscriptionsAPIFilter L f = Some f'.
Proof.
  split; [|apply materializeFiltersList_In].
  induction filters as [|x rest IH]; [simpl; lia|].
  rewrite materializeFiltersList_cons.
  destruct (materializeSubscriptionsAPIFilter L x); simpl; lia.
Qed.

(** X2: of the fields set on an expression only the first one in the order
    Exact, Prefix, Suffix, All, Any, Not is used: the expression
    materialises as the expression with that field alone. *)
Theorem materialize_first_field_wins
        (All Any : list SubscriptionsAPIFilter) (Not : option SubscriptionsAPIFilter)
        (Exact Prefix Suffix : list (string * string)) (CESQL : string) :
  let this := materializeSubscriptionsAPIFilter L
                (mkSubscriptionsAPIFilter All Any Not Exact Prefix Suffix CESQL) in
  let only f := materializeSubscriptionsAPIFilter L f in
  (Exact <> [] ->
   this = only (mkSubscriptionsAPIFilter [] [] None Exact [] [] ""))
  /\ (Exact = [] -> Prefix <> [] ->
      this = only (mkSubscriptionsAPIFilter [] [] None [] Prefix [] ""))
  /\ (Exact = [] -> Prefix = [] -> Suffix <> [] ->
      this = only (mkSubscriptionsAPIFilter [] [] None [] [] Suffix ""))
  /\ (Exact = [] -> Prefix = [] -> Suffix = [] -> All <> [] ->
      this = only (mkSubscriptionsAPIFilter All [] None [] [] [] ""))
  /\ (Exact = [] -> Prefix = [] -> Suffix = [] -> All = [] -> Any <> [] ->
      this = only (mkSubscriptionsAPIFilter [] Any None [] [] [] ""))
  /\ (Exact = [] -> Prefix = [] -> Suffix = [] -> All = [] -> Any = [] ->
      Not <> None ->
      this = only (mkSubscriptionsAPIFilter [] [] Not [] [] [] "")).
Proof.
  cbv zeta. repeat split.
  - intros H. destruct Exact; [contradiction|reflexivity].
  - intros -> H. destruct Prefix; [contradiction|reflexivity].
  - intros -> -> H. destruct Suffix; [contradiction|reflexivity].
  - intros -> -> -> H. destruct All; [contradiction|reflexivity].
  - intros -> -> -> -> H. destruct Any; [contradiction|reflexivity].
  - intros -> -> -> -> -> H. destruct Not; [reflexivity|contradiction].
Qed.

(** X3: an Exact map with entries materialises to nil as soon as the
    constructor rejects one of them, and otherwise to the exact filter of
    the entry the loop visits last: the filters of the other entries are
    overwritten. *)
Theorem materialize_Exact_entries
        (All Any : list SubscriptionsAPIFilter) (Not : option SubscriptionsAPIFilter)
        (Exact Prefix Suffix : list (string * string)) (CESQL : string) :
  Exact <> [] ->
  materializeSubscriptionsAPIFilter L
    (mkSubscriptionsAPIFilter All Any Not Exact Prefix Suffix CESQL) =
  if forallb (fun e => exactValid L (fst e) (snd e)) Exact
  then Some (exactFilter (fst (last Exact ("", ""))) (snd (last Exact ("", ""))))
  else None.
Proof.
  intros HExact. destruct Exact as [|e rest]; [contradiction|].
  change (materializeSubscriptionsAPIFilter L
            (mkSubscriptionsAPIFilter All Any Not (e :: rest) Prefix Suffix CESQL))
    with (rangeLeaf (NewExactFilter L) (e :: rest) None).
  rewrite rangeLeaf_spec.
  assert (Hvalid : forall l,
             forallb (fun e0 => match NewExactFilter L (fst e0) (snd e0) with
                                | Some _ => true | None => false end) l =
             forallb (fun e0 => exactValid L (fst e0) (snd e0)) l).
  { intros l. induction l as [|x xs IHl]; [reflexivity|]. simpl. rewrite IHl.
    unfold NewExactFilter. now destruct (exactValid L (fst x) (snd x)). }
  rewrite Hvalid.
  destruct (forallb (fun e0 => exactValid L (fst e0) (snd e0)) (e :: rest)) eqn:Hall;
    [|reflexivity].
  rewrite forallb_forall in Hall.
  assert (Hlast : In (last (e :: rest) ("", "")) (e :: rest)).
  { clear. generalize e. induction rest as [|y ys IH]; intros x.
    - now left.
    - right. apply (IH y). }
  unfold NewExactFilter. now rewrite (Hall _ Hlast).
Qed.

(** X4: an expression that selects All, Any or Not always materialises,
    whatever becomes of its children; an All whose children all fail to
    compile materialises to the empty all-filter. *)
Theorem composite_always_materialises
        (All Any : list SubscriptionsAPIFilter) (Not : option SubscriptionsAPIFilter)
        (CESQL : string) :
  (All <> [] \/ Any <> [] \/ Not <> None ->
   materializeSubscriptionsAPIFilter L
     (mkSubscriptionsAPIFilter All Any Not [] [] [] CESQL) <> None)
  /\ (All <> [] ->
      (forall child, In child All -> materializeSubscriptionsAPIFilter L child = None) ->
      materializeSubscriptionsAPIFilter L
        (mkSubscriptionsAPIFilter All Any Not [] [] [] CESQL) =
      Some (allFilter [])).
Proof.
  split.
  - intros H. destruct All as [|a All']; [|rewrite materialize_All; discriminate].
    destruct Any as [|b Any']; [|discriminate].
    destruct Not as [child|]; [discriminate|].
    destruct H as [H|[H|H]]; contradiction.
  - intros HAll Hfail. destruct All as [|a All']; [contradiction|].
    rewrite materialize_All. unfold NewAllFilter. do 2 f_equal.
    destruct (materializeFiltersList L (a :: All')) as [|f' l] eqn:Hl; [reflexivity|].
    assert (Hin : In f' (materializeFiltersList L (a :: All')))
      by (rewrite Hl; now left).
    apply materializeFiltersList_In in Hin.
    destruct Hin as (f & Hf & Hsome). rewrite (Hfail f Hf) in Hsome. discriminate.
Qed.

End MaterialisationMore.

Lemma materialize_first_field_wins_witness :
  materializeSubscriptionsAPIFilter sample.knative
    (mkSubscriptionsAPIFilter [sample.exact "id" "1"] [] None
                              [("type", "ex.t")] [("source", "s")] [] "SELECT (") =
  materializeSubscriptionsAPIFilter sample.knative (sample.exact "type" "ex.t").
Proof.
  apply (materialize_first_field_wins sample.knative
           [sample.exact "id" "1"] [] None [("type", "ex.t")] [("source", "s")] []
           "SELECT (").
  discriminate.
Defined.

Lemma materialize_Exact_entries_witness :
  materializeSubscriptionsAPIFilter sample.knative
    (mkSubscriptionsAPIFilter [] [] None [("type", "ex.t"); ("source", "s")] [] [] "") =
  Some (exactFilter "source" "s").
Proof.
  apply (materialize_Exact_entries sample.knative [] [] None
           [("type", "ex.t"); ("source", "s")] [] [] "").
  discriminate.
Defined.

Lemma composite_always_materialises_witness :
  materializeSubscriptionsAPIFilter sample.knative
    (mkSubscriptionsAPIFilter [sample.exact "" "x"; emptyFilter] [] None [] [] [] "") =
  Some (allFilter []).
Proof.
  apply (composite_always_materialises sample.knative
           [sample.exact "" "x"; emptyFilter] [] None "").
  - discriminate.
  - intros child [<-|[<-|[]]]; reflexivity.
Defined.

(** ** Delivery *)

Section DeliveryMore.
Variable W : World.
Variable m : Manager.

Lemma requests_app (xs ys : list Call) :
  requests (xs ++ ys) = (requests xs ++ requests ys)%list.
Proof.
  induction xs as [|c xs IH]; [reflexivity|].
  destruct c; simpl; now rewrite IH.
Qed.

(** What a [send] adds to the history: one request, then either nothing
    or the handler call (success), or an error log; a panic adds nothing
    after the request. *)
Lemma send_added (ctx : Context) (event : Event) (h : list Call) :
  exists added o,
    send W m ctx event h = ((h ++ ceClient_Request ctx event :: added)%list, o)
    /\ requests added = []
    /\ match o with
       | Returned true => added = [] \/ exists reply, added = [ceHandler_call ctx reply]
       | Returned false =>
           exists init msg, added = (init ++ [logger_Error msg false])%list
       | Panicked _ => added = []
       end.
Proof.
  rewrite (send_run W m). cbv zeta.
  destruct (ceClient_respond W h ctx event) as [res result].
  destruct (IsACK result).
  - destruct res as [reply|].
    + destruct (ceHandler m) as [handler|].
      * destruct (handler _ ctx reply); rewrite <- ?app_assoc; simpl.
        -- eexists; eexists. split; [reflexivity|]. split; [reflexivity|].
           exists [ceHandler_call ctx reply]. eexists. reflexivity.
        -- eexists; eexists. split; [reflexivity|]. split; [reflexivity|].
           right. now exists reply.
      * exists [], (Panicked (NilPointerDereference "m.ceHandler")). auto.
    + exists [], (Returned true). auto.
  - destruct (TargetFromContext (url_Parse W) ctx).
    + rewrite <- app_assoc. simpl.
      eexists; eexists. split; [reflexivity|]. split; [reflexivity|].
      exists []. eexists. reflexivity.
    + exists [], (Panicked (NilPointerDereference "cloudevents.TargetFromContext(ctx)")).
      auto.
Qed.

(** X5: a result that is not an ACK is never a success.  [send] makes its
    one request and does not call the reply handler, even when the
    response carries an event; then, when the context has a target that
    parses, it logs the error that matches the result (undelivered before
    NACK before unknown) and returns false, and when it has none, the log
    panics on the nil target, with nothing logged. *)
Theorem send_without_ACK (ctx : Context) (event : Event) (h : list Call)
        (res : option Event) (result : Result) :
  ceClient_respond W h ctx event = (res, result) ->
  IsACK result = false ->
  send W m ctx event h =
  match TargetFromContext (url_Parse W) ctx with
  | Some _ =>
      ((h ++ [ceClient_Request ctx event;
              logger_Error (failureMessage result) false])%list,
       Returned false)
  | None =>
      ((h ++ [ceClient_Request ctx event])%list,
       Panicked (NilPointerDereference "cloudevents.TargetFromContext(ctx)"))
  end.
Proof.
  intros Hres Hack. rewrite (send_run W m). cbv zeta. rewrite Hres, Hack.
  destruct (TargetFromContext (url_Parse W) ctx); [|reflexivity].
  now rewrite <- app_assoc.
Qed.

(** X6: [send] panics in two cases and no other: the result is an ACK
    that carries a reply event and no handler has been registered; or the
    result is not an ACK and the context has no target that parses, so that
    the error log dereferences nil. *)
Theorem send_panics_iff (ctx : Context) (event : Event) (h : list Call) :
  (exists p, snd (send W m ctx event h) = Panicked p) <->
  (IsACK (snd (ceClient_respond W h ctx event)) = true
   /\ fst (ceClient_respond W h ctx event) <> None
   /\ ceHandler m = None)
  \/ (IsACK (snd (ceClient_respond W h ctx event)) = false
      /\ TargetFromContext (url_Parse W) ctx = None).
Proof.
  rewrite (send_run W m). cbv zeta.
  destruct (ceClient_respond W h ctx event) as [res result]. simpl.
  destruct (IsACK result).
  - destruct res as [reply|].
    + destruct (ceHandler m) as [handler|].
      * split.
        -- intros [p Hp]. destruct (handler _ ctx reply); discriminate.
        -- intros [(_ & _ & Hnone)|(Hack & _)]; discriminate.
      * split; [intros _; left; repeat split; discriminate|].
        intros _. eexists. reflexivity.
    + split; [intros [p Hp]; discriminate|].
      intros [(_ & Hres & _)|(Hack & _)]; [contradiction|discriminate].
  - destruct (TargetFromContext (url_Parse W) ctx).
    + split; [intros [p Hp]; discriminate|].
      intros [(Hack & _)|(_ & Hnone)]; discriminate.
    + split; [intros _; now right|]. intros _. eexists. reflexivity.
Qed.

Lemma retryContext_target (target : Target) (h h1 : list Call) (ctx1 : Context) :
  retryContext W m target h = (h1, Returned ctx1) ->
  ctxTarget ctx1 = Some (URL target).
Proof.
  unfold retryContext.
  destruct (retryGuard target) as [[[opts retry] policy]|].
  - destruct (BackoffDelay opts) as [s|]; [|discriminate].
    unfold bind, ret.
    assert (Hw : ctxTarget (withRetries (ContextWithTarget (ctx m) (URL target))
                                        policy (fst (period_Parse W s)) retry) =
                 Some (URL target)).
    { unfold withRetries.
      destruct (String.eqb policy BackoffPolicyLinear); [reflexivity|].
      destruct (String.eqb policy BackoffPolicyExponential); reflexivity. }
    destruct (period_Parse W s) as [delay [err|]]; simpl in Hw.
    + rewrite (logError_run W).
      destruct (TargetFromContext (url_Parse W) _); [|discriminate].
      now intros [= _ <-].
    + now intros [= _ <-].
  - intros [= _ <-]. reflexivity.
Qed.

(** The dead-letter stage: at most one request, to the dead-letter URL;
    when it returns, its last call is a delivery or the lost log. *)
Lemma deadLetter_added (target : Target) (event : Event) (h : list Call) :
  exists added o,
    deadLetter W m target event h = ((h ++ added)%list, o)
    /\ (requests added = []
        \/ exists url, deadLetterGuard target = Some url
                       /\ requests added = [ContextWithTarget (ctx m) url])
    /\ (o = Returned tt ->
        exists init c, added = (init ++ [c])%list
                       /\ (isDelivery c = true \/ isLostLog c = true)).
Proof.
  unfold deadLetter, bind.
  destruct (deadLetterGuard target) as [url|].
  - destruct (send_added (ContextWithTarget (ctx m) url) event h)
      as (added & o & -> & Hreq & Hshape).
    destruct o as [[|]|p].
    + exists (ceClient_Request (ContextWithTarget (ctx m) url) event :: added), (Returned tt).
      unfold ret. split; [reflexivity|]. split.
      * right. exists url. simpl. now rewrite Hreq.
      * intros _. destruct Hshape as [->|[reply ->]].
        -- exists [], (ceClient_Request (ContextWithTarget (ctx m) url) event). auto.
        -- exists [ceClient_Request (ContextWithTarget (ctx m) url) event],
                  (ceHandler_call (ContextWithTarget (ctx m) url) reply). auto.
    + rewrite (logError_run W).
      destruct (TargetFromContext (url_Parse W) (ContextWithTarget (ctx m) url)).
      * exists ((ceClient_Request (ContextWithTarget (ctx m) url) event :: added)
                  ++ [logger_Error "Event was lost while sending to %s" true])%list,
               (Returned tt).
        rewrite app_assoc. split; [reflexivity|]. split.
        -- right. exists url. rewrite requests_app. simpl. now rewrite Hreq.
        -- intros _. eexists; eexists. split; [reflexivity|]. now right.
      * eexists; eexists. split; [reflexivity|]. split; [|discriminate].
        right. exists url. simpl. now rewrite Hreq.
    + eexists; eexists. split; [reflexivity|]. split; [|discriminate].
      right. exists url. simpl. now rewrite Hreq.
  - rewrite (logError_run W).
    destruct (TargetFromContext (url_Parse W) (ContextWithTarget (ctx m) (URL target))).
    + exists [logger_Error "Event was lost while sending to %s" true], (Returned tt).
      split; [reflexivity|]. split; [now left|].
      intros _. exists [], (logger_Error "Event was lost while sending to %s" true).
      split; [reflexivity|]. now right.
    + exists [], (Panicked (NilPointerDereference "cloudevents.TargetFromContext(ctx)")).
      rewrite app_nil_r. split; [reflexivity|]. split; [now left|discriminate].
Qed.

(** X7: a dispatch makes one request or two, never more: the first to the
    target URL, in the context of the primary send; the second, if any, to
    the dead-letter URL, which is then set and not empty. *)
Theorem dispatch_requests (target : Target) (event : Event)
        (h h1 : list Call) (ctx1 : Context) :
  retryContext W m target h = (h1, Returned ctx1) ->
  exists added o,
    dispatchCloudEventToTarget W m target event h = ((h1 ++ added)%list, o)
    /\ ctxTarget ctx1 = Some (URL target)
    /\ (requests added = [ctx1]
        \/ exists url,
             deadLetterGuard target = Some url
             /\ requests added = [ctx1; ContextWithTarget (ctx m) url]).
Proof.
  intros Hctx.
  pose proof (retryContext_target target h h1 ctx1 Hctx) as Htarget.
  unfold dispatchCloudEventToTarget, bind. rewrite Hctx.
  destruct (send_added ctx1 event h1) as (added1 & o1 & -> & Hreq1 & _).
  destruct o1 as [[|]|p].
  - eexists; eexists. split; [reflexivity|]. split; [exact Htarget|].
    left. simpl. now rewrite Hreq1.
  - destruct (deadLetter_added target event
                (h1 ++ ceClient_Request ctx1 event :: added1)%list)
      as (added2 & o2 & -> & Hreq2 & _).
    exists ((ceClient_Request ctx1 event :: added1) ++ added2)%list, o2.
    rewrite app_assoc. split; [reflexivity|]. split; [exact Htarget|].
    rewrite requests_app. simpl. rewrite Hreq1. simpl.
    destruct Hreq2 as [->|(url & Hurl & ->)]; [now left|].
    right. now exists url.
  - eexists; eexists. split; [reflexivity|]. split; [exact Htarget|].
    left. simpl. now rewrite Hreq1.
Qed.

(** X8: with delivery options whose retry count is at least 1, whose
    policy is set and whose delay parses, the primary send carries the
    target URL and a retry policy with that delay and that count; the
    backoff is linear or exponential for these two policy names and
    constant for any other. *)
Theorem retry_policy_attached (target : Target) (h : list Call)
        (opts : DeliveryOptions) (retry : Z) (policy : BackoffPolicyType)
        (s : string) (delay : Z) :
  Target_DeliveryOptions target = Some opts ->
  Retry opts = Some retry ->
  (1 <= retry)%Z ->
  BackoffPolicy opts = Some policy ->
  BackoffDelay opts = Some s ->
  period_Parse W s = (delay, None) ->
  exists strategy,
    retryContext W m target h =
    (h, Returned (mkContext (Some (URL target))
                            (Some (mkRetryParams strategy delay retry))))
    /\ (policy = "linear" -> strategy = BackoffStrategyLinear)
    /\ (policy = "exponential" -> strategy = BackoffStrategyExponential)
    /\ (policy <> "linear" -> policy <> "exponential" ->
        strategy = BackoffStrategyConstant).
Proof.
  intros Ho Hr Hle Hp Hd Hparse.
  assert (Hg : retryGuard target = Some (opts, retry, policy))
    by (apply retryGuard_Some; auto).
  unfold retryContext. rewrite Hg, Hd, Hparse.
  unfold bind, ret, withRetries, BackoffPolicyLinear, BackoffPolicyExponential.
  destruct (String.eqb_spec policy "linear") as [->|Hl].
  - exists BackoffStrategyLinear. repeat split; auto; try discriminate; contradiction.
  - destruct (String.eqb_spec policy "exponential") as [->|He].
    + exists BackoffStrategyExponential.
      repeat split; auto; try discriminate; contradiction.
    + exists BackoffStrategyConstant. repeat split; auto; contradiction.
Qed.

(** X9: without delivery options, without a retry count, with a count
    below 1 or without a policy, no retry policy is attached and the
    backoff delay is neither read nor parsed: the primary send carries the
    target URL alone, beside what the manager's context holds. *)
Theorem no_retry_policy (target : Target) (h : list Call) :
  Target_DeliveryOptions target = None
  \/ (exists opts,
        Target_DeliveryOptions target = Some opts
        /\ (Retry opts = None
            \/ (exists retry, Retry opts = Some retry /\ (retry < 1)%Z)
            \/ BackoffPolicy opts = None)) ->
  retryContext W m target h =
  (h, Returned (mkContext (Some (URL target)) (ctxRetries (ctx m)))).
Proof.
  intros H.
  assert (Hg : retryGuard target = None).
  { unfold retryGuard.
    destruct H as [->|(opts & -> & [->|[(retry & -> & Hlt)| Hp]])]; try reflexivity.
    - destruct (Z.leb_spec 1 retry); [lia|reflexivity].
    - destruct (Retry opts) as [r|]; [|reflexivity].
      rewrite Hp. now destruct (1 <=? r)%Z. }
  unfold retryContext. now rewrite Hg.
Qed.

(** X10: a dispatch that returns never ends silently: the last call it
    made is either the request or the handler call of a send that
    succeeded, or the log that declares the event lost. *)
Theorem dispatch_ends_delivered_or_lost (target : Target) (event : Event)
        (h h1 h' : list Call) (ctx1 : Context) :
  retryContext W m target h = (h1, Returned ctx1) ->
  dispatchCloudEventToTarget W m target event h = (h', Returned tt) ->
  exists init c,
    h' = ((h1 ++ init) ++ [c])%list
    /\ (isDelivery c = true \/ isLostLog c = true).
Proof.
  intros Hctx. unfold dispatchCloudEventToTarget, bind. rewrite Hctx.
  destruct (send_added ctx1 event h1) as (added1 & o1 & -> & _ & Hshape).
  destruct o1 as [[|]|p]; [| |discriminate].
  - intros [= <-]. destruct Hshape as [->|[reply ->]].
    + exists [], (ceClient_Request ctx1 event). rewrite app_nil_r. auto.
    + exists [ceClient_Request ctx1 event], (ceHandler_call ctx1 reply).
      rewrite <- app_assoc. auto.
  - destruct (deadLetter_added target event
                (h1 ++ ceClient_Request ctx1 event :: added1)%list)
      as (added2 & o2 & -> & _ & Hlast).
    intros [= <- ->]. destruct (Hlast eq_refl) as (init & c & -> & Hc).
    exists ((ceClient_Request ctx1 event :: added1) ++ init)%list, c.
    split; [|exact Hc]. now rewrite !app_assoc.
Qed.

(** X11: [DispatchCloudEvent] delivers nothing for triggers whose filters
    evaluate to FailFilter: when they all do, it returns having made no
    request and no handler call; it has only written to the logger, with
    one "Skipped delivery due to filter" line for each trigger. *)
Theorem dispatchLoop_all_filtered (entries : list (string * Trigger))
        (event : Event) (h : list Call) :
  (forall n trg,
      In (n, trg) entries ->
      Filter_eval (library W)
        (NewAllFilter (materializeFiltersList (library W) (Filters trg))) event
      = FailFilter) ->
  exists added,
    dispatchLoop W m entries event h = ((h ++ added)%list, Returned tt)
    /\ forallb isLog added = true
    /\ List.length (List.filter isSkipLine added) = List.length entries.
Proof.
  assert (Hlines : forall L trg,
             forallb isLog (fst (materializeFiltersList_logged L (Filters trg))) = true
             /\ List.filter isSkipLine
                  (fst (materializeFiltersList_logged L (Filters trg))) = []).
  { intros L trg. generalize (Filters trg) as fs.
    assert (Hleaf : forall msg new kvs acc,
               msg <> "Skipped delivery due to filter" ->
               forallb isLog (fst (rangeLeaf_logged msg new kvs acc)) = true
               /\ List.filter isSkipLine (fst (rangeLeaf_logged msg new kvs acc)) = []).
    { intros msg new kvs. induction kvs as [|[a v] kvs' IH]; intros acc Hmsg.
      - now split.
      - simpl. destruct (new a v); [now apply IH|]. simpl.
        destruct (String.eqb_spec msg "Skipped delivery due to filter");
          [contradiction|now split]. }
    assert (Hone : forall f,
               forallb isLog (fst (materializeSubscriptionsAPIFilter_logged L f)) = true
               /\ List.filter isSkipLine
                    (fst (materializeSubscriptionsAPIFilter_logged L f)) = []).
    { induction f as [All Any Not Exact Prefix Suffix CESQL HAll HAny HNot]
        using SubscriptionsAPIFilter_nested_ind.
      assert (Hlist : forall fs,
                 Forall (fun f =>
                   forallb isLog (fst (materializeSubscriptionsAPIFilter_logged L f)) = true
                   /\ List.filter isSkipLine
                        (fst (materializeSubscriptionsAPIFilter_logged L f)) = []) fs ->
                 forallb isLog (fst (materializeFiltersList_logged L fs)) = true
                 /\ List.filter isSkipLine (fst (materializeFiltersList_logged L fs)) = []).
      { induction 1 as [|x xs [Hx1 Hx2] _ [IH1 IH2]]; [now split|].
        rewrite materializeFiltersList_logged_cons.
        destruct (materializeSubscriptionsAPIFilter_logged L x) as [written [x'|]];
          simpl in *.
        - now rewrite forallb_app, filter_app, Hx1, Hx2, IH1, IH2.
        - rewrite forallb_app, filter_app, Hx1, Hx2. simpl. now rewrite IH1, IH2. }
      destruct Exact as [|e Exact'];
        [|apply (Hleaf _ _ (e :: Exact') None); discriminate].
      destruct Prefix as [|e Prefix'];
        [|apply (Hleaf _ _ (e :: Prefix') None); discriminate].
      destruct Suffix as [|e Suffix'];
        [|apply (Hleaf _ _ (e :: Suffix') None); discriminate].
      destruct All as [|a All'].
      - destruct Any as [|a Any'].
        + destruct Not as [child|].
          * change (materializeSubscriptionsAPIFilter_logged L
                      (mkSubscriptionsAPIFilter [] [] (Some child) [] [] [] CESQL))
              with (let (lines, f) := materializeSubscriptionsAPIFilter_logged L child in
                    (lines, Some (NewNotFilter f))).
            now destruct (materializeSubscriptionsAPIFilter_logged L child).
          * simpl. destruct (String.eqb CESQL ""); [now split|].
            destruct (NewCESQLFilter L CESQL); now split.
        + rewrite logged_Any. specialize (Hlist (a :: Any') HAny).
          unfold materializeFiltersList_logged in Hlist.
          now destruct (materializeLoop_logged L (a :: Any') [] []).
      - rewrite logged_All. specialize (Hlist (a :: All') HAll).
        unfold materializeFiltersList_logged in Hlist.
        now destruct (materializeLoop_logged L (a :: All') [] []). }
    intros fs. induction fs as [|x xs [IH1 IH2]]; [now split|].
    rewrite materializeFiltersList_logged_cons.
    destruct (Hone x) as [Hx1 Hx2].
    destruct (materializeSubscriptionsAPIFilter_logged L x) as [written [x'|]];
      simpl in *.
    - now rewrite forallb_app, filter_app, Hx1, Hx2, IH1, IH2.
    - rewrite forallb_app, filter_app, Hx1, Hx2. simpl. now rewrite IH1, IH2. }
  revert h. induction entries as [|[n trg] rest IH]; intros h Hfail.
  - exists []. simpl. unfold ret. now rewrite app_nil_r.
  - rewrite dispatchLoop_step, (Hfail n trg (or_introl eq_refl)).
    unfold bind, calls, call.
    destruct (IH ((h ++ fst (materializeFiltersList_logged (library W) (Filters trg)))
                    ++ [logger_Debug "Skipped delivery due to filter"])%list)
      as (added & -> & Hlog & Hcount).
    { intros n' trg' Hin. apply (Hfail n' trg'). now right. }
    destruct (Hlines (library W) trg) as [Hl1 Hl2].
    exists (fst (materializeFiltersList_logged (library W) (Filters trg))
              ++ logger_Debug "Skipped delivery due to filter" :: added)%list.
    split; [now rewrite <- !app_assoc|]. split.
    + rewrite forallb_app, Hl1. simpl. exact Hlog.
    + rewrite filter_app, Hl2. simpl. now rewrite Hcount.
Qed.

End DeliveryMore.

Lemma send_without_ACK_witness :
  send sample.world sample.manager (mkContext (Some "http://nack") None) sample.event [] =
  (([] ++ [ceClient_Request (mkContext (Some "http://nack") None) sample.event;
           logger_Error "Event not accepted at %s" false])%list, Returned false).
Proof.
  apply (send_without_ACK sample.world sample.manager
           (mkContext (Some "http://nack") None) sample.event []
           None (mkResult false false true));
    reflexivity.
Defined.

Lemma dispatch_requests_witness :
  let target := mkTarget "http://nack"
                         (Some (sample.options 2 "constant" "PT0S" (Some "http://ack"))) in
  let primary := mkContext (Some "http://nack")
                           (Some (mkRetryParams BackoffStrategyConstant 0 2)) in
  exists added o,
    dispatchCloudEventToTarget sample.world sample.manager target sample.event [] =
      (([] ++ added)%list, o)
    /\ ctxTarget primary = Some (URL target)
    /\ (requests added = [primary]
        \/ exists url,
             deadLetterGuard target = Some url
             /\ requests added = [primary; ContextWithTarget (ctx sample.manager) url]).
Proof.
  intros target primary.
  apply (dispatch_requests sample.world sample.manager target sample.event [] [] primary).
  reflexivity.
Defined.

Lemma retry_policy_attached_witness :
  exists strategy,
    retryContext sample.world sample.manager
      (mkTarget "http://ack" (Some (sample.options 3 "exponential" "PT1S" None))) [] =
    ([], Returned (mkContext (Some "http://ack")
                             (Some (mkRetryParams strategy 1000000000 3))))
    /\ ("exponential" = "linear" -> strategy = BackoffStrategyLinear)
    /\ ("exponential" = "exponential" -> strategy = BackoffStrategyExponential)
    /\ ("exponential" <> "linear" -> "exponential" <> "exponential" ->
        strategy = BackoffStrategyConstant).
Proof.
  apply (retry_policy_attached sample.world sample.manager
           (mkTarget "http://ack" (Some (sample.options 3 "exponential" "PT1S" None))) []
           (sample.options 3 "exponential" "PT1S" None) 3 "exponential" "PT1S"
           1000000000);
    try reflexivity.
  lia.
Defined.

Lemma no_retry_policy_witness :
  let opts := {| Retry := Some 0%Z; BackoffPolicy := Some "linear";
                 BackoffDelay := None; DeadLetterURL := None |} in
  retryContext sample.world sample.manager (mkTarget "http://ack" (Some opts)) [] =
  ([], Returned (mkContext (Some "http://ack") None)).
Proof.
  intros opts.
  apply (no_retry_policy sample.world sample.manager (mkTarget "http://ack" (Some opts)) []).
  right. exists opts. split; [reflexivity|].
  right; left. exists 0%Z. split; [reflexivity|lia].
Defined.

Lemma dispatch_ends_delivered_or_lost_witness :
  exists init c,
    [ceClient_Request (mkContext (Some "http://nack") None) sample.event;
     logger_Error "Event not accepted at %s" false;
     logger_Error "Event was lost while sending to %s" true] =
    (([] ++ init) ++ [c])%list
    /\ (isDelivery c = true \/ isLostLog c = true).
Proof.
  apply (dispatch_ends_delivered_or_lost sample.world sample.manager
           (mkTarget "http://nack" None) sample.event [] []
           _ (mkContext (Some "http://nack") None));
    reflexivity.
Defined.

Lemma dispatchLoop_all_filtered_witness :
  exists added,
    dispatchLoop sample.world sample.manager
      [("t", mkTrigger [sample.exact "" "x"; sample.exact "type" "other"]
                       (mkTarget "http://ack" None))]
      sample.event [] = (([] ++ added)%list, Returned tt)
    /\ forallb isLog added = true
    /\ List.length (List.filter isSkipLine added) = 1%nat.
Proof.
  apply (dispatchLoop_all_filtered sample.world sample.manager
           [("t", mkTrigger [sample.exact "" "x"; sample.exact "type" "other"]
                            (mkTarget "http://ack" None))]
           sample.event []).
  intros n trg [[= <- <-]|[]]. reflexivity.
Defined.

(** ** Reconciliation *)

Section MapLemmasMore.
Context {V : Type}.

Lemma lookup_delete_same (n : string) (m : list (string * V)) :
  lookup n (delete n m) = None.
Proof.
  induction m as [|[k v] rest IH]; simpl; [reflexivity|].
  destruct (String.eqb_spec n k) as [->|Hnk]; [exact IH|].
  simpl. destruct (String.eqb_spec n k); [contradiction|exact IH].
Qed.

Lemma delete_incl (k : string) (m : list (string * V)) (entry : string * V) :
  In entry (delete k m) -> In entry m.
Proof.
  induction m as [|[k' v] rest IH]; simpl; [auto|].
  destruct (String.eqb k k'); [auto|]. intros [<-|H]; auto.
Qed.

Lemma lookup_In (n : string) (v : V) (m : list (string * V)) :
  lookup n m = Some v -> In (n, v) m.
Proof.
  induction m as [|[k v'] rest IH]; simpl; [discriminate|].
  destruct (String.eqb_spec n k) as [->|]; [intros [= ->]; now left|].
  intros H. right. now apply IH.
Qed.

Lemma hasKey_keys (n : string) (m : list (string * V)) :
  hasKey n m <-> In n (map fst m).
Proof.
  unfold hasKey. induction m as [|[k v] rest IH]; simpl.
  - split; [congruence|contradiction].
  - destruct (String.eqb_spec n k) as [->|Hnk].
    + split; [now left|discriminate].
    + rewrite IH. split; [now right|]. intros [H|H]; [congruence|exact H].
Qed.

Lemma store_incl (k : string) (v : V) (m : list (string * V)) (entry : string * V) :
  In entry (store k v m) -> entry = (k, v) \/ In entry m.
Proof.
  induction m as [|[k' v'] rest IH]; simpl.
  - intros [<-|[]]. now left.
  - destruct (String.eqb k k'); simpl.
    + intros [<-|H]; auto.
    + intros [<-|H]; [auto|]. destruct (IH H); auto.
Qed.

End MapLemmasMore.

Section ReconciliationMore.
Variable W : World.

(** Neither pass reads the history: run after [h], a pass adds to [h] what
    it adds to the empty history, with the same result. *)
Lemma removalPass_frame (c : Config) (entries : list (string * subscriber)) :
  forall subs h,
    removalPass c entries subs h =
    ((h ++ fst (removalPass c entries subs []))%list,
     snd (removalPass c entries subs [])).
Proof.
  induction entries as [|[k sub] rest IH]; intros subs h; simpl.
  - unfold ret. simpl. now rewrite app_nil_r.
  - destruct (lookup k (Triggers c)); [apply IH|].
    unfold bind, unsubscribe, call. simpl.
    rewrite (IH (delete k subs) (h ++ [backend_Unsubscribe (name sub)])%list).
    rewrite (IH (delete k subs) [backend_Unsubscribe (name sub)]).
    simpl. now rewrite <- app_assoc.
Qed.

Lemma updatePass_frame (entries : list (string * Trigger)) :
  forall subs h,
    updatePass W entries subs h =
    ((h ++ fst (updatePass W entries subs []))%list,
     snd (updatePass W entries subs [])).
Proof.
  induction entries as [|[n trg] rest IH]; intros subs h; simpl.
  - unfold ret. simpl. now rewrite app_nil_r.
  - destruct (lookup n subs) as [s|].
    + destruct (DeepEqual W (trigger s) trg); [apply IH|].
      destruct (updateTrigger W s trg) as [s' [err|]];
        unfold bind, call, ret; simpl.
      * now rewrite <- app_assoc.
      * rewrite (IH (store n s' subs)
                    (h ++ [logger_Info "Updating trigger configuration"])%list).
        rewrite (IH (store n s' subs) [logger_Info "Updating trigger configuration"]).
        simpl. now rewrite <- app_assoc.
    + destruct (updateTrigger W (newSubscriber n) trg) as [s' [err|]];
        unfold bind, call, ret; simpl.
      * reflexivity.
      * rewrite (IH (store n s' subs) (h ++ [backend_Subscribe n])%list).
        rewrite (IH (store n s' subs) [backend_Subscribe n]).
        simpl. now rewrite <- app_assoc.
Qed.

(** [UpdateFromConfig] is its two passes, one after the other, and returns. *)
Lemma UpdateFromConfig_passes (m : Manager) (c : Config) (h : list Call) :
  exists added1 added2 subs1 subs2,
    removalPass c (subscribers m) (subscribers m) [] = (added1, Returned subs1)
    /\ updatePass W (Triggers c) subs1 [] = (added2, Returned subs2)
    /\ UpdateFromConfig W m c h =
       ((h ++ added1 ++ added2)%list, Returned (with_subscribers m subs2)).
Proof.
  destruct (removalPass_spec c (subscribers m) (subscribers m) [])
    as (added1 & subs1 & H1 & _).
  destruct (updatePass_spec W (Triggers c) subs1 [])
    as (added2 & subs2 & H2 & _).
  simpl in H1, H2. exists added1, added2, subs1, subs2.
  split; [exact H1|]. split; [exact H2|].
  unfold UpdateFromConfig, bind.
  rewrite removalPass_frame, H1. simpl.
  rewrite updatePass_frame, H2. simpl.
  unfold ret. now rewrite app_assoc.
Qed.

(** *** The removal pass, from the empty history *)

Lemma removalPass_step (c : Config) (k : string) (sub : subscriber)
      (rest subs : list (string * subscriber)) :
  removalPass c ((k, sub) :: rest) subs [] =
  match lookup k (Triggers c) with
  | Some _ => removalPass c rest subs []
  | None =>
      (backend_Unsubscribe (name sub) :: fst (removalPass c rest (delete k subs) []),
       snd (removalPass c rest (delete k subs) []))
  end.
Proof.
  simpl. destruct (lookup k (Triggers c)); [reflexivity|].
  unfold bind, unsubscribe, call. simpl.
  now rewrite removalPass_frame.
Qed.

Lemma removalPass_returns (c : Config) (entries subs : list (string * subscriber)) :
  exists added subs', removalPass c entries subs [] = (added, Returned subs').
Proof.
  destruct (removalPass_spec c entries subs []) as (added & subs' & H & _).
  now exists added, subs'.
Qed.

Lemma removalPass_props (c : Config) (entries : list (string * subscriber)) :
  forall subs added subs',
    removalPass c entries subs [] = (added, Returned subs') ->
    (forall k sub, In (k, sub) entries -> lookup k (Triggers c) = None ->
                   In (backend_Unsubscribe (name sub)) added)
    /\ (forall call, In call added ->
                     exists k sub, In (k, sub) entries
                                   /\ lookup k (Triggers c) = None
                                   /\ call = backend_Unsubscribe (name sub))
    /\ (forall n, hasKey n subs' ->
                  hasKey n subs /\ (hasKey n (Triggers c) \/ ~ In n (map fst entries)))
    /\ (forall n, hasKey n (Triggers c) -> lookup n subs' = lookup n subs)
    /\ (forall entry, In entry subs' -> In entry subs)
    /\ ((forall k sub, In (k, sub) entries -> hasKey k (Triggers c)) ->
        added = [] /\ subs' = subs).
Proof.
  induction entries as [|[k sub] rest IH]; intros subs added subs' Hrun.
  - injection Hrun as <- <-. repeat split; auto; try contradiction.
  - rewrite removalPass_step in Hrun.
    destruct (lookup k (Triggers c)) as [t|] eqn:Hk.
    + destruct (IH subs added subs' Hrun) as (HB & HA & HC & HD & HE & HF).
      repeat split.
      * intros k' sub' [[= <- <-]|Hin] Hnone; [congruence|]. now apply (HB k' sub').
      * intros call Hin. destruct (HA call Hin) as (k' & sub' & Hin' & Hnone & ->).
        exists k', sub'. simpl. auto.
      * now apply HC.
      * destruct (HC n H) as [_ [Hc|Hnot]]; [now left|].
        destruct (String.eqb_spec n k) as [->|Hnk].
        -- left. unfold hasKey. congruence.
        -- right. simpl. intros [Heq|Hin]; [congruence|contradiction].
      * exact HD.
      * exact HE.
      * apply HF. intros k' sub' Hin. apply (H k' sub'). now right.
      * apply HF. intros k' sub' Hin. apply (H k' sub'). now right.
    + destruct (removalPass_returns c rest (delete k subs)) as (added0 & subs0 & Hrec).
      rewrite Hrec in Hrun. simpl in Hrun. injection Hrun as <- <-.
      destruct (IH (delete k subs) added0 subs0 Hrec) as (HB & HA & HC & HD & HE & HF).
      repeat split.
      * intros k' sub' [[= <- <-]|Hin] Hnone; [now left|].
        right. now apply (HB k' sub').
      * intros call [<-|Hin].
        -- exists k, sub. simpl. auto.
        -- destruct (HA call Hin) as (k' & sub' & Hin' & Hnone & ->).
           exists k', sub'. simpl. auto.
      * destruct (HC n H) as [Hdel _]. unfold hasKey in *.
        destruct (String.eqb_spec n k) as [->|Hnk].
        -- now rewrite lookup_delete_same in Hdel.
        -- now rewrite lookup_delete_other in Hdel.
      * destruct (HC n H) as [Hdel [Hc|Hnot]]; [now left|].
        right. simpl. intros [Heq|Hin]; [|contradiction].
        subst n. unfold hasKey in Hdel. now rewrite lookup_delete_same in Hdel.
      * intros n Hn. rewrite (HD n Hn). apply lookup_delete_other.
        intros ->. unfold hasKey in Hn. congruence.
      * intros entry Hin. apply (delete_incl k). now apply HE.
      * exfalso. specialize (H k sub (or_introl eq_refl)). unfold hasKey in H. congruence.
      * exfalso. specialize (H k sub (or_introl eq_refl)). unfold hasKey in H. congruence.
Qed.

(** *** The add/update pass, from the empty history *)

Lemma updatePass_step (n : string) (trg : Trigger) (rest : list (string * Trigger))
      (subs : list (string * subscriber)) :
  updatePass W ((n, trg) :: rest) subs [] =
  match lookup n subs with
  | None =>
      match updateTrigger W (newSubscriber n) trg with
      | (_, Some _) => ([logger_Error "Could not setup trigger" false], Returned subs)
      | (s', None) =>
          (backend_Subscribe n :: fst (updatePass W rest (store n s' subs) []),
           snd (updatePass W rest (store n s' subs) []))
      end
  | Some s =>
      if DeepEqual W (trigger s) trg then updatePass W rest subs []
      else
        match updateTrigger W s trg with
        | (s', Some _) =>
            ([logger_Info "Updating trigger configuration";
              logger_Error "Could not setup trigger" false],
             Returned (store n s' subs))
        | (s', None) =>
            (logger_Info "Updating trigger configuration"
               :: fst (updatePass W rest (store n s' subs) []),
             snd (updatePass W rest (store n s' subs) []))
        end
  end.
Proof.
  simpl. destruct (lookup n subs) as [s|].
  - destruct (DeepEqual W (trigger s) trg); [reflexivity|].
    destruct (updateTrigger W s trg) as [s' [err|]];
      unfold bind, call, ret; simpl; [reflexivity|].
    now rewrite updatePass_frame.
  - destruct (updateTrigger W (newSubscriber n) trg) as [s' [err|]];
      unfold bind, call, ret; simpl; [reflexivity|].
    now rewrite updatePass_frame.
Qed.

Lemma updatePass_returns (entries : list (string * Trigger))
      (subs : list (string * subscriber)) :
  exists added subs', updatePass W entries subs [] = (added, Returned subs').
Proof.
  destruct (updatePass_spec W entries subs []) as (added & subs' & H & _).
  now exists added, subs'.
Qed.

Lemma hasKey_store (n k : string) (s : subscriber) (subs : list (string * subscriber)) :
  hasKey n (store k s subs) <-> n = k \/ hasKey n subs.
Proof.
  unfold hasKey. rewrite lookup_store.
  destruct (String.eqb_spec n k) as [->|Hnk].
  - split; [now left|discriminate].
  - split; [now right|]. intros [H|H]; [contradiction|exact H].
Qed.

Lemma keyed_store (n : string) (s : subscriber) (subs : list (string * subscriber)) :
  name s = n -> keyed subs -> keyed (store n s subs).
Proof.
  unfold keyed. intros Hname Hkeyed. rewrite Forall_forall in *.
  intros entry Hin. destruct (store_incl n s subs entry Hin) as [->|Hin'].
  - exact Hname.
  - now apply Hkeyed.
Qed.

Lemma keyed_lookup (n : string) (s : subscriber) (subs : list (string * subscriber)) :
  keyed subs -> lookup n subs = Some s -> name s = n.
Proof.
  unfold keyed. rewrite Forall_forall. intros Hkeyed Hs.
  exact (Hkeyed (n, s) (lookup_In n s subs Hs)).
Qed.

(** What the pass does to the table and which backend calls it makes. *)
Lemma updatePass_table (entries : list (string * Trigger)) :
  forall subs added subs',
    updatePass W entries subs [] = (added, Returned subs') ->
    (forall n, hasKey n subs -> hasKey n subs')
    /\ (forall n, hasKey n subs' -> hasKey n subs \/ In n (map fst entries))
    /\ (forall n, In (backend_Subscribe n) added ->
                  ~ hasKey n subs /\ In n (map fst entries))
    /\ (forall n, ~ In (backend_Unsubscribe n) added)
    /\ ((forall s trg, name (fst (updateTrigger W s trg)) = name s) ->
        keyed subs -> keyed subs').
Proof.
  induction entries as [|[n trg] rest IH]; intros subs added subs' Hrun.
  - injection Hrun as <- <-. repeat split; auto; try contradiction.
  - rewrite updatePass_step in Hrun.
    assert (Hrec : forall s' c,
               (forall k, c = backend_Subscribe k -> k = n /\ ~ hasKey n subs) ->
               (forall k, c <> backend_Unsubscribe k) ->
               ((forall s trg, name (fst (updateTrigger W s trg)) = name s) ->
                keyed subs -> name s' = n) ->
               (c :: fst (updatePass W rest (store n s' subs) []),
                snd (updatePass W rest (store n s' subs) [])) = (added, Returned subs') ->
               (forall k, hasKey k subs -> hasKey k subs')
               /\ (forall k, hasKey k subs' -> hasKey k subs \/ In k (map fst ((n, trg) :: rest)))
               /\ (forall k, In (backend_Subscribe k) added ->
                             ~ hasKey k subs /\ In k (map fst ((n, trg) :: rest)))
               /\ (forall k, ~ In (backend_Unsubscribe k) added)
               /\ ((forall s trg, name (fst (updateTrigger W s trg)) = name s) ->
                   keyed subs -> keyed subs')).
    { intros s' c Hc Hun Hname Heq.
      destruct (updatePass_returns rest (store n s' subs)) as (added0 & subs0 & Hr).
      rewrite Hr in Heq. simpl in Heq. injection Heq as <- <-.
      destruct (IH (store n s' subs) added0 subs0 Hr) as (H0 & H1 & H2 & H3 & H4).
      split; [|split; [|split; [|split]]].
      - intros k Hk. apply H0. apply hasKey_store. now right.
      - intros k Hk. destruct (H1 k Hk) as [Hs|Hin]; [|right; now right].
        apply hasKey_store in Hs. destruct Hs as [->|Hs]; [right; now left|now left].
      - intros k [Heq|Hin].
        + destruct (Hc k Heq) as [-> Hnot]. split; [exact Hnot|now left].
        + destruct (H2 k Hin) as [Hnot Hin']. split; [|now right].
          intros Hk. apply Hnot. apply hasKey_store. now right.
      - intros k [Heq|Hin]; [now apply (Hun k)|now apply (H3 k)].
      - intros Hpres Hkeyed. apply (H4 Hpres). apply keyed_store; auto. }
    destruct (lookup n subs) as [s|] eqn:Hs.
    + destruct (DeepEqual W (trigger s) trg).
      * destruct (IH subs added subs' Hrun) as (H0 & H1 & H2 & H3 & H4).
        split; [exact H0|]. split; [|split; [|split; [exact H3|exact H4]]].
        -- intros k Hk. destruct (H1 k Hk); [now left|right; now right].
        -- intros k Hin. destruct (H2 k Hin). split; [assumption|now right].
      * destruct (updateTrigger W s trg) as [s' [err|]] eqn:Hupd.
        -- injection Hrun as <- <-. split; [|split; [|split; [|split]]].
           ++ intros k Hk. apply hasKey_store. now right.
           ++ intros k Hk. apply hasKey_store in Hk.
              destruct Hk as [->|Hk]; [right; now left|now left].
           ++ intros k [H|[H|[]]]; discriminate.
           ++ intros k [H|[H|[]]]; discriminate.
           ++ intros Hpres Hkeyed. apply keyed_store; auto.
              pose proof (Hpres s trg) as Hn. rewrite Hupd in Hn. simpl in Hn.
              rewrite Hn. now apply (keyed_lookup n s subs).
        -- apply (Hrec s' (logger_Info "Updating trigger configuration"));
             [intros; discriminate|intros; discriminate| |exact Hrun].
           intros Hpres Hkeyed.
           pose proof (Hpres s trg) as Hn. rewrite Hupd in Hn. simpl in Hn.
           rewrite Hn. now apply (keyed_lookup n s subs).
    + destruct (updateTrigger W (newSubscriber n) trg) as [s' [err|]] eqn:Hupd.
      * injection Hrun as <- <-. split; [auto|]. split; [auto|].
        split; [|split; [|auto]].
        -- intros k [H|[]]; discriminate.
        -- intros k [H|[]]; discriminate.
      * apply (Hrec s' (backend_Subscribe n)); [| | |exact Hrun].
        -- intros k [= <-]. split; [reflexivity|]. unfold hasKey. congruence.
        -- intros; discriminate.
        -- intros Hpres _.
           pose proof (Hpres (newSubscriber n) trg) as Hn. rewrite Hupd in Hn.
           exact Hn.
Qed.

Lemma updatePass_unchanged (entries : list (string * Trigger)) :
  forall subs,
    (forall n trg, In (n, trg) entries ->
                   exists s, lookup n subs = Some s
                             /\ DeepEqual W (trigger s) trg = true) ->
    updatePass W entries subs [] = ([], Returned subs).
Proof.
  induction entries as [|[n trg] rest IH]; intros subs Hsame; [reflexivity|].
  rewrite updatePass_step.
  destruct (Hsame n trg (or_introl eq_refl)) as (s & -> & ->).
  apply IH. intros n' trg' Hin. apply Hsame. now right.
Qed.

(** When no set-up fails, the pass visits every entry. *)
Lemma updatePass_complete (entries : list (string * Trigger)) :
  (forall s n trg, In (n, trg) entries -> snd (updateTrigger W s trg) = None) ->
  forall subs added subs',
    updatePass W entries subs [] = (added, Returned subs') ->
    (forall n, In n (map fst entries) -> hasKey n subs')
    /\ (forall n, In n (map fst entries) -> ~ hasKey n subs ->
                  In (backend_Subscribe n) added).
Proof.
  induction entries as [|[n trg] rest IH]; intros Hok subs added subs' Hrun.
  - split; intros k [].
  - assert (Hok' : forall s k t, In (k, t) rest -> snd (updateTrigger W s t) = None).
    { intros s k t Hin. apply (Hok s k t). now right. }
    specialize (IH Hok').
    assert (Hrec : forall s' c,
               (~ hasKey n subs -> c = backend_Subscribe n) ->
               (c :: fst (updatePass W rest (store n s' subs) []),
                snd (updatePass W rest (store n s' subs) [])) = (added, Returned subs') ->
               (forall k, In k (map fst ((n, trg) :: rest)) -> hasKey k subs')
               /\ (forall k, In k (map fst ((n, trg) :: rest)) -> ~ hasKey k subs ->
                             In (backend_Subscribe k) added)).
    { intros s' c Hc Heq.
      destruct (updatePass_returns rest (store n s' subs)) as (added0 & subs0 & Hr).
      rewrite Hr in Heq. simpl in Heq. injection Heq as <- <-.
      destruct (IH (store n s' subs) added0 subs0 Hr) as (H1 & H2).
      destruct (updatePass_table rest (store n s' subs) added0 subs0 Hr) as (H0 & _).
      split.
      - intros k [<-|Hin]; [|now apply H1].
        apply H0. apply hasKey_store. now left.
      - intros k Hin Hnot. destruct (String.eqb_spec k n) as [->|Hkn].
        + left. now apply Hc.
        + right. destruct Hin as [Heq|Hin]; [simpl in Heq; congruence|].
          apply H2; [exact Hin|]. intros Hk. apply hasKey_store in Hk.
          destruct Hk as [Hk|Hk]; [contradiction|contradiction]. }
    rewrite updatePass_step in Hrun.
    destruct (lookup n subs) as [s|] eqn:Hs.
    + destruct (DeepEqual W (trigger s) trg).
      * destruct (IH subs added subs' Hrun) as (H1 & H2).
        destruct (updatePass_table rest subs added subs' Hrun) as (H0 & _).
        split.
        -- intros k [<-|Hin]; [|now apply H1].
           apply H0. unfold hasKey. simpl. congruence.
        -- intros k [Heq|Hin] Hnot; [|now apply H2].
           simpl in Heq. subst k. exfalso. apply Hnot. unfold hasKey. congruence.
      * pose proof (Hok s n trg (or_introl eq_refl)) as Hnone.
        destruct (updateTrigger W s trg) as [s' [err|]]; [discriminate|].
        apply (Hrec s' (logger_Info "Updating trigger configuration")); [|exact Hrun].
        intros Hnot. exfalso. apply Hnot. unfold hasKey. congruence.
    + pose proof (Hok (newSubscriber n) n trg (or_introl eq_refl)) as Hnone.
      destruct (updateTrigger W (newSubscriber n) trg) as [s' [err|]]; [discriminate|].
      apply (Hrec s' (backend_Subscribe n)); [auto|exact Hrun].
Qed.

(** X12: when [UpdateFromConfig] returns, every name of the subscriber table
    is a name of the snapshot: a subscriber whose trigger is gone from the
    snapshot is gone from the table. *)
Theorem table_within_snapshot (m : Manager) (c : Config) (h : list Call) :
  exists added m',
    UpdateFromConfig W m c h = ((h ++ added)%list, Returned m')
    /\ forall n, hasKey n (subscribers m') -> hasKey n (Triggers c).
Proof.
  destruct (UpdateFromConfig_passes m c h)
    as (added1 & added2 & subs1 & subs2 & H1 & H2 & ->).
  exists (added1 ++ added2)%list, (with_subscribers m subs2).
  split; [reflexivity|]. simpl. intros n Hn.
  destruct (removalPass_props c _ _ _ _ H1) as (_ & _ & HC & _).
  destruct (updatePass_table _ _ _ _ H2) as (_ & HU & _).
  destruct (HU n Hn) as [Hs1|Hin].
  - destruct (HC n Hs1) as [Hs [Hc|Hnot]]; [exact Hc|].
    exfalso. apply Hnot. now apply hasKey_keys.
  - now apply hasKey_keys.
Qed.

(** X13: in a table that stores each subscriber under its own name, a
    subscriber whose name is not in the snapshot is unsubscribed from the
    backend and removed from the table. *)
Theorem removed_trigger_unsubscribed (m : Manager) (c : Config) (n : string)
        (h : list Call) :
  keyed (subscribers m) ->
  hasKey n (subscribers m) ->
  ~ hasKey n (Triggers c) ->
  exists added m',
    UpdateFromConfig W m c h = ((h ++ added)%list, Returned m')
    /\ In (backend_Unsubscribe n) added
    /\ ~ In (backend_Subscribe n) added
    /\ ~ hasKey n (subscribers m').
Proof.
  intros Hkeyed Hn Hgone.
  destruct (UpdateFromConfig_passes m c h)
    as (added1 & added2 & subs1 & subs2 & H1 & H2 & ->).
  exists (added1 ++ added2)%list, (with_subscribers m subs2).
  split; [reflexivity|]. simpl.
  destruct (removalPass_props c _ _ _ _ H1) as (HB & HA & HC & _).
  destruct (updatePass_table _ _ _ _ H2) as (_ & HU & HS & _).
  assert (Hnot1 : ~ hasKey n subs1).
  { intros Hs1. destruct (HC n Hs1) as [_ [Hc|Hnot]]; [contradiction|].
    apply Hnot. now apply hasKey_keys. }
  split; [|split].
  - apply in_or_app. left.
    destruct (lookup n (subscribers m)) as [s|] eqn:Hs; [|now elim Hn].
    rewrite <- (keyed_lookup n s (subscribers m) Hkeyed Hs).
    apply (HB n s); [now apply lookup_In|].
    unfold hasKey in Hgone. now destruct (lookup n (Triggers c)); [elim Hgone|].
  - intros Hin. apply in_app_or in Hin. destruct Hin as [Hin|Hin].
    + destruct (HA _ Hin) as (k & sub & _ & _ & Heq). discriminate.
    + destruct (HS n Hin) as [_ Hkeys]. apply Hgone. now apply hasKey_keys.
  - intros Hn'. destruct (HU n Hn') as [Hs1|Hin]; [contradiction|].
    apply Hgone. now apply hasKey_keys.
Qed.

(** X14: reconciling with a snapshot that names exactly the subscribers of
    the table, each with a trigger deeply equal to the stored one, does
    nothing: no backend call, no log, the same manager. *)
Theorem unchanged_snapshot_is_noop (m : Manager) (c : Config) (h : list Call) :
  (forall k sub, In (k, sub) (subscribers m) -> hasKey k (Triggers c)) ->
  (forall n trg, In (n, trg) (Triggers c) ->
                 exists s, lookup n (subscribers m) = Some s
                           /\ DeepEqual W (trigger s) trg = true) ->
  UpdateFromConfig W m c h = (h, Returned m).
Proof.
  intros Hkeys Hsame.
  destruct (UpdateFromConfig_passes m c h)
    as (added1 & added2 & subs1 & subs2 & H1 & H2 & ->).
  destruct (removalPass_props c _ _ _ _ H1) as (_ & _ & _ & _ & _ & HF).
  destruct (HF Hkeys) as [-> ->].
  rewrite (updatePass_unchanged (Triggers c) (subscribers m) Hsame) in H2.
  injection H2 as <- <-. simpl. rewrite app_nil_r. now destruct m.
Qed.

(** X15: when no trigger of the snapshot fails to set up, the names of the
    table after [UpdateFromConfig] are exactly the names of the snapshot,
    and [Subscribe] has been called on exactly the names of the snapshot
    that the table did not have. *)
Theorem snapshot_fully_reconciled (m : Manager) (c : Config) (h : list Call) :
  (forall s n trg, In (n, trg) (Triggers c) -> snd (updateTrigger W s trg) = None) ->
  exists added m',
    UpdateFromConfig W m c h = ((h ++ added)%list, Returned m')
    /\ (forall n, hasKey n (subscribers m') <-> hasKey n (Triggers c))
    /\ (forall n, In (backend_Subscribe n) added <->
                  hasKey n (Triggers c) /\ ~ hasKey n (subscribers m)).
Proof.
  intros Hok.
  destruct (UpdateFromConfig_passes m c h)
    as (added1 & added2 & subs1 & subs2 & H1 & H2 & ->).
  exists (added1 ++ added2)%list, (with_subscribers m subs2).
  split; [reflexivity|]. simpl.
  destruct (removalPass_props c _ _ _ _ H1) as (_ & HA & HC & HD & _).
  destruct (updatePass_table _ _ _ _ H2) as (_ & HU & HS & _).
  destruct (updatePass_complete (Triggers c) Hok _ _ _ H2) as (Hall & Hsub).
  split.
  - intros n. split.
    + intros Hn. destruct (HU n Hn) as [Hs1|Hin]; [|now apply hasKey_keys].
      destruct (HC n Hs1) as [Hs [Hc|Hnot]]; [exact Hc|].
      exfalso. apply Hnot. now apply hasKey_keys.
    + intros Hn. apply Hall. now apply hasKey_keys.
  - intros n. split.
    + intros Hin. apply in_app_or in Hin. destruct Hin as [Hin|Hin].
      * destruct (HA _ Hin) as (k & sub & _ & _ & Heq). discriminate.
      * destruct (HS n Hin) as [Hnot Hkeys].
        assert (Hc : hasKey n (Triggers c)) by now apply hasKey_keys.
        split; [exact Hc|]. intros Hn. apply Hnot. unfold hasKey.
        now rewrite (HD n Hc).
    + intros [Hc Hnot]. apply in_or_app. right.
      apply Hsub; [now apply hasKey_keys|].
      intros Hs1. now destruct (HC n Hs1) as [Hs _].
Qed.

(** X16: whatever fails, [Subscribe] is called only on names of the
    snapshot that the table did not have, and [Unsubscribe] only for
    subscribers of the table whose key is not in the snapshot. *)
Theorem backend_calls_are_justified (m : Manager) (c : Config) (h : list Call) :
  exists added m',
    UpdateFromConfig W m c h = ((h ++ added)%list, Returned m')
    /\ (forall n, In (backend_Subscribe n) added ->
                  hasKey n (Triggers c) /\ ~ hasKey n (subscribers m))
    /\ (forall n, In (backend_Unsubscribe n) added ->
                  exists k sub, In (k, sub) (subscribers m)
                                /\ ~ hasKey k (Triggers c) /\ name sub = n).
Proof.
  destruct (UpdateFromConfig_passes m c h)
    as (added1 & added2 & subs1 & subs2 & H1 & H2 & ->).
  exists (added1 ++ added2)%list, (with_subscribers m subs2).
  split; [reflexivity|].
  destruct (removalPass_props c _ _ _ _ H1) as (_ & HA & HC & HD & _).
  destruct (updatePass_table _ _ _ _ H2) as (_ & _ & HS & HN & _).
  split.
  - intros n Hin. apply in_app_or in Hin. destruct Hin as [Hin|Hin].
    + destruct (HA _ Hin) as (k & sub & _ & _ & Heq). discriminate.
    + destruct (HS n Hin) as [Hnot Hkeys].
      assert (Hc : hasKey n (Triggers c)) by now apply hasKey_keys.
      split; [exact Hc|]. intros Hn. apply Hnot. unfold hasKey.
      now rewrite (HD n Hc).
  - intros n Hin. apply in_app_or in Hin. destruct Hin as [Hin|Hin].
    + destruct (HA _ Hin) as (k & sub & Hin' & Hnone & [= ->]).
      exists k, sub. split; [exact Hin'|]. split; [|reflexivity].
      unfold hasKey. congruence.
    + now elim (HN n).
Qed.

(** X17: when [updateTrigger] leaves the name of a subscriber alone,
    [UpdateFromConfig] keeps the table keyed: every subscriber is stored
    under its own name, the name the backend knows it by. *)
Theorem table_stays_keyed (m : Manager) (c : Config) (h : list Call) :
  (forall s trg, name (fst (updateTrigger W s trg)) = name s) ->
  keyed (subscribers m) ->
  exists added m',
    UpdateFromConfig W m c h = ((h ++ added)%list, Returned m')
    /\ keyed (subscribers m').
Proof.
  intros Hpres Hkeyed.
  destruct (UpdateFromConfig_passes m c h)
    as (added1 & added2 & subs1 & subs2 & H1 & H2 & ->).
  exists (added1 ++ added2)%list, (with_subscribers m subs2).
  split; [reflexivity|]. simpl.
  destruct (removalPass_props c _ _ _ _ H1) as (_ & _ & _ & _ & HE & _).
  destruct (updatePass_table _ _ _ _ H2) as (_ & _ & _ & _ & HK).
  apply (HK Hpres). unfold keyed in *. rewrite Forall_forall in *.
  intros entry Hin. apply Hkeyed. now apply HE.
Qed.

Lemma updatePass_other (entries : list (string * Trigger)) (n : string) :
  ~ In n (map fst entries) ->
  forall subs added subs',
    updatePass W entries subs [] = (added, Returned subs') ->
    lookup n subs' = lookup n subs.
Proof.
  induction entries as [|[k t] rest IH]; intros Hnot subs added subs' Hrun.
  - now injection Hrun as _ <-.
  - assert (Hk : n <> k) by (intros ->; apply Hnot; now left).
    assert (Hrest : ~ In n (map fst rest)) by (intros Hin; apply Hnot; now right).
    assert (Hrec : forall s' c,
               (c :: fst (updatePass W rest (store k s' subs) []),
                snd (updatePass W rest (store k s' subs) [])) = (added, Returned subs') ->
               lookup n subs' = lookup n subs).
    { intros s' c Heq.
      destruct (updatePass_returns rest (store k s' subs)) as (added0 & subs0 & Hr).
      rewrite Hr in Heq. simpl in Heq. injection Heq as _ <-.
      rewrite (IH Hrest _ _ _ Hr), lookup_store.
      now destruct (String.eqb_spec n k). }
    rewrite updatePass_step in Hrun.
    destruct (lookup k subs) as [s|].
    + destruct (DeepEqual W (trigger s) t); [now apply (IH Hrest _ _ _ Hrun)|].
      destruct (updateTrigger W s t) as [s' [err|]]; [|now apply (Hrec s' _ Hrun)].
      injection Hrun as _ <-. rewrite lookup_store. now destruct (String.eqb_spec n k).
    + destruct (updateTrigger W (newSubscriber k) t) as [s' [err|]];
        [|now apply (Hrec s' _ Hrun)].
      now injection Hrun as _ <-.
Qed.

(** When no set-up fails and the names are distinct, the pass leaves under
    an existing name the subscriber its iteration made of it. *)
Lemma updatePass_updates (entries : list (string * Trigger)) :
  (forall s k t, In (k, t) entries -> snd (updateTrigger W s t) = None) ->
  NoDup (map fst entries) ->
  forall subs added subs' n s trg,
    updatePass W entries subs [] = (added, Returned subs') ->
    lookup n subs = Some s ->
    In (n, trg) entries ->
    lookup n subs' =
    Some (if DeepEqual W (trigger s) trg then s else fst (updateTrigger W s trg)).
Proof.
  induction entries as [|[k t] rest IH];
    intros Hok Hnodup subs added subs' n s trg Hrun Hs Hin; [contradiction|].
  assert (Hok' : forall s0 k0 t0, In (k0, t0) rest -> snd (updateTrigger W s0 t0) = None).
  { intros s0 k0 t0 H. apply (Hok s0 k0 t0). now right. }
  simpl in Hnodup. apply NoDup_cons_iff in Hnodup. destruct Hnodup as [Hk Hnodup].
  rewrite updatePass_step in Hrun.
  destruct Hin as [[= -> ->]|Hin].
  - rewrite Hs in Hrun.
    destruct (DeepEqual W (trigger s) trg).
    + rewrite (updatePass_other rest n Hk _ _ _ Hrun). exact Hs.
    + pose proof (Hok s n trg (or_introl eq_refl)) as Hnone.
      destruct (updateTrigger W s trg) as [s1 [err|]]; [discriminate|].
      destruct (updatePass_returns rest (store n s1 subs)) as (added0 & subs0 & Hr).
      rewrite Hr in Hrun. simpl in Hrun. injection Hrun as _ <-.
      rewrite (updatePass_other rest n Hk _ _ _ Hr), lookup_store, String.eqb_refl.
      reflexivity.
  - assert (Hnk : n <> k).
    { intros ->. apply Hk. change k with (fst (k, trg)). now apply in_map. }
    assert (Hrec : forall s1 c,
               (c :: fst (updatePass W rest (store k s1 subs) []),
                snd (updatePass W rest (store k s1 subs) [])) = (added, Returned subs') ->
               lookup n subs' =
               Some (if DeepEqual W (trigger s) trg then s
                     else fst (updateTrigger W s trg))).
    { intros s1 c Heq.
      destruct (updatePass_returns rest (store k s1 subs)) as (added0 & subs0 & Hr).
      rewrite Hr in Heq. simpl in Heq. injection Heq as _ <-.
      apply (IH Hok' Hnodup _ _ _ n s trg Hr); [|exact Hin].
      rewrite lookup_store. now destruct (String.eqb_spec n k). }
    destruct (lookup k subs) as [s0|].
    + destruct (DeepEqual W (trigger s0) t).
      * now apply (IH Hok' Hnodup _ _ _ n s trg Hrun).
      * pose proof (Hok s0 k t (or_introl eq_refl)) as Hnone.
        destruct (updateTrigger W s0 t) as [s1 [err|]]; [discriminate|].
        now apply (Hrec s1 _ Hrun).
    + pose proof (Hok (newSubscriber k) k t (or_introl eq_refl)) as Hnone.
      destruct (updateTrigger W (newSubscriber k) t) as [s1 [err|]]; [discriminate|].
      now apply (Hrec s1 _ Hrun).
Qed.

(** C7: the update in place of a trigger that differs from the stored one
    does not happen when the loop has returned before reaching it: with a
    new trigger that fails to set up visited first, the subscriber of a
    name that is in the table and in the snapshot, with a different
    trigger, is left as it was, and its update is not even attempted. *)
Theorem differing_trigger_skipped_after_failure
        (m : Manager) (failing : string) (bad : Trigger)
        (rest : list (string * Trigger)) (n : string) (s : subscriber) (trg : Trigger)
        (s' : subscriber) (err : string) (h : list Call) :
  ~ hasKey failing (subscribers m) ->
  updateTrigger W (newSubscriber failing) bad = (s', Some err) ->
  lookup n (subscribers m) = Some s ->
  In (n, trg) rest ->
  DeepEqual W (trigger s) trg = false ->
  exists added m',
    UpdateFromConfig W m (mkConfig ((failing, bad) :: rest)) h =
      ((h ++ added)%list, Returned m')
    /\ lookup n (subscribers m') = Some s
    /\ ~ In (logger_Info "Updating trigger configuration") added.
Proof.
  intros Hnew Hfail Hs Hin _.
  destruct (UpdateFromConfig_passes m (mkConfig ((failing, bad) :: rest)) h)
    as (added1 & added2 & subs1 & subs2 & H1 & H2 & ->).
  exists (added1 ++ added2)%list, (with_subscribers m subs2).
  split; [reflexivity|].
  destruct (removalPass_props _ _ _ _ _ H1) as (_ & HA & HC & HD & _).
  assert (Hnone : lookup failing subs1 = None).
  { destruct (lookup failing subs1) eqn:Hl; [|reflexivity].
    exfalso. apply Hnew. apply (HC failing). unfold hasKey. congruence. }
  cbn [Triggers] in H2. rewrite updatePass_step, Hnone, Hfail in H2.
  injection H2 as <- <-. simpl. split.
  - rewrite HD; [exact Hs|].
    apply hasKey_keys. simpl. right. change n with (fst (n, trg)). now apply in_map.
  - intros Hinfo. apply in_app_or in Hinfo. destruct Hinfo as [Hinfo|[Hinfo|[]]].
    + destruct (HA _ Hinfo) as (k & sub & _ & _ & Heq). discriminate.
    + discriminate.
Qed.

(** X21: when no set-up fails and the names of the snapshot are distinct,
    as the keys of a Go map are, a trigger whose name is in the table is
    updated in place: after [UpdateFromConfig] the table holds, under that
    name, the subscriber as [updateTrigger] left it when the trigger
    differs from the stored one, and the subscriber as it was when the
    trigger is deeply equal to it. *)
Theorem differing_trigger_updated_in_place
        (m : Manager) (c : Config) (n : string) (s : subscriber) (trg : Trigger)
        (h : list Call) :
  (forall s0 k t, In (k, t) (Triggers c) -> snd (updateTrigger W s0 t) = None) ->
  NoDup (map fst (Triggers c)) ->
  lookup n (subscribers m) = Some s ->
  In (n, trg) (Triggers c) ->
  exists added m',
    UpdateFromConfig W m c h = ((h ++ added)%list, Returned m')
    /\ lookup n (subscribers m') =
       Some (if DeepEqual W (trigger s) trg then s else fst (updateTrigger W s trg)).
Proof.
  intros Hok Hnodup Hs Hin.
  destruct (UpdateFromConfig_passes m c h)
    as (added1 & added2 & subs1 & subs2 & H1 & H2 & ->).
  exists (added1 ++ added2)%list, (with_subscribers m subs2).
  split; [reflexivity|]. simpl.
  destruct (removalPass_props _ _ _ _ _ H1) as (_ & _ & _ & HD & _).
  apply (updatePass_updates (Triggers c) Hok Hnodup subs1 added2 subs2 n s trg H2);
    [|exact Hin].
  rewrite HD; [exact Hs|].
  apply hasKey_keys. change n with (fst (n, trg)). now apply in_map.
Qed.

End ReconciliationMore.

Lemma removed_trigger_unsubscribed_witness :
  let gone := {| name := "a"; trigger := sample.goodTrigger;
                 filter := [exactFilter "type" "ex.t"]; backoff := 0 |} in
  let m := with_subscribers sample.manager [("a", gone)] in
  exists added m',
    UpdateFromConfig sample.world m (mkConfig [("b", sample.goodTrigger)]) [] =
      (([] ++ added)%list, Returned m')
    /\ In (backend_Unsubscribe "a") added
    /\ ~ In (backend_Subscribe "a") added
    /\ ~ hasKey "a" (subscribers m').
Proof.
  intros gone m.
  apply (removed_trigger_unsubscribed sample.world m
           (mkConfig [("b", sample.goodTrigger)]) "a" []).
  - repeat constructor.
  - unfold hasKey. simpl. discriminate.
  - unfold hasKey. simpl. intros H. now apply H.
Defined.

Lemma unchanged_snapshot_is_noop_witness :
  let kept := {| name := "b"; trigger := sample.goodTrigger;
                 filter := [exactFilter "type" "ex.t"]; backoff := 0 |} in
  let m := with_subscribers sample.manager [("b", kept)] in
  UpdateFromConfig sample.world m (mkConfig [("b", sample.goodTrigger)]) [] =
  ([], Returned m).
Proof.
  intros kept m.
  apply (unchanged_snapshot_is_noop sample.world m
           (mkConfig [("b", sample.goodTrigger)]) []).
  - intros k sub [[= <- <-]|[]]. unfold hasKey. simpl. discriminate.
  - intros n trg [[= <- <-]|[]]. exists kept. split; reflexivity.
Defined.

Lemma snapshot_fully_reconciled_witness :
  let c := mkConfig [("b", sample.goodTrigger);
                     ("c", mkTrigger [] (mkTarget "http://nack" None))] in
  exists added m',
    UpdateFromConfig sample.world sample.manager c [] = (([] ++ added)%list, Returned m')
    /\ (forall n, hasKey n (subscribers m') <-> hasKey n (Triggers c))
    /\ (forall n, In (backend_Subscribe n) added <->
                  hasKey n (Triggers c) /\ ~ hasKey n (subscribers sample.manager)).
Proof.
  intros c.
  apply (snapshot_fully_reconciled sample.world sample.manager c []).
  intros s n trg [[= <- <-]|[[= <- <-]|[]]]; reflexivity.
Defined.

Lemma table_stays_keyed_witness :
  exists added m',
    UpdateFromConfig sample.world sample.manager
      (mkConfig [("b", sample.goodTrigger)]) [] = (([] ++ added)%list, Returned m')
    /\ keyed (subscribers m').
Proof.
  apply (table_stays_keyed sample.world sample.manager
           (mkConfig [("b", sample.goodTrigger)]) []).
  - intros s trg. simpl. unfold sample.updateTrigger_spec.
    destruct (sample.compileAll sample.knative (Filters trg)); [|reflexivity].
    destruct (Target_DeliveryOptions (Trigger_Target trg)) as [opts|]; [|reflexivity].
    destruct (BackoffDelay opts) as [d|]; [|reflexivity].
    destruct (sample.parsePeriod d) as [z [err|]]; reflexivity.
  - constructor.
Defined.

(** The failing input of C7: the table holds b; the snapshot is visited in
    the order a, b, where a is new and fails to set up and b has a new
    target URL.  The subscriber of b keeps its old trigger. *)
Lemma differing_trigger_skipped_after_failure_witness :
  let old := {| name := "b"; trigger := sample.goodTrigger;
                filter := [exactFilter "type" "ex.t"]; backoff := 0 |} in
  let m := with_subscribers sample.manager [("b", old)] in
  let moved := mkTrigger [sample.exact "type" "ex.t"] (mkTarget "http://nack" None) in
  exists added m',
    UpdateFromConfig sample.world m
      (mkConfig [("a", sample.badTrigger); ("b", moved)]) [] =
      (([] ++ added)%list, Returned m')
    /\ lookup "b" (subscribers m') = Some old
    /\ ~ In (logger_Info "Updating trigger configuration") added.
Proof.
  intros old m moved.
  apply (differing_trigger_skipped_after_failure sample.world m "a" sample.badTrigger
           [("b", moved)] "b" old moved (newSubscriber "a")
           "expected 'P' period mark at the start" []).
  - unfold hasKey. simpl. intros H. now apply H.
  - reflexivity.
  - reflexivity.
  - now left.
  - reflexivity.
Defined.

Lemma differing_trigger_updated_in_place_witness :
  let old := {| name := "b"; trigger := sample.goodTrigger;
                filter := [exactFilter "type" "ex.t"]; backoff := 0 |} in
  let m := with_subscribers sample.manager [("b", old)] in
  let moved := mkTrigger [sample.exact "type" "ex.t"] (mkTarget "http://nack" None) in
  exists added m',
    UpdateFromConfig sample.world m
      (mkConfig [("c", sample.goodTrigger); ("b", moved)]) [] =
      (([] ++ added)%list, Returned m')
    /\ lookup "b" (subscribers m') =
       Some {| name := "b"; trigger := moved;
               filter := [exactFilter "type" "ex.t"]; backoff := 0 |}.
Proof.
  intros old m moved.
  apply (differing_trigger_updated_in_place sample.world m
           (mkConfig [("c", sample.goodTrigger); ("b", moved)]) "b" old moved []).
  - intros s0 k t [[= <- <-]|[[= <- <-]|[]]]; reflexivity.
  - repeat constructor; simpl; intuition discriminate.
  - reflexivity.
  - right. now left.
Defined.

(** ** Managers built by [New] *)

Section Reachable.
Variable W : World.

(** With a handler registered, [send] panics only in the error log of a
    context without target. *)
Lemma send_panics_with_handler (m : Manager) (handler : CloudEventHandler)
      (ctx0 : Context) (event : Event) (h h1 : list Call) (p : Panic) :
  ceHandler m = Some handler ->
  send W m ctx0 event h = (h1, Panicked p) ->
  p = NilPointerDereference "cloudevents.TargetFromContext(ctx)"
  /\ TargetFromContext (url_Parse W) ctx0 = None.
Proof.
  intros Hh. rewrite send_run. cbv zeta. rewrite Hh.
  destruct (ceClient_respond W h ctx0 event) as [res result].
  destruct (IsACK result).
  - destruct res as [reply|]; [|discriminate].
    destruct (handler _ ctx0 reply); discriminate.
  - destruct (TargetFromContext (url_Parse W) ctx0); [discriminate|].
    intros [= _ <-]. auto.
Qed.

Lemma TargetFromContext_same_target (ctx1 ctx2 : Context) :
  ctxTarget ctx1 = ctxTarget ctx2 ->
  TargetFromContext (url_Parse W) ctx1 = TargetFromContext (url_Parse W) ctx2.
Proof.
  unfold TargetFromContext. now intros ->.
Qed.

(** X18: once a reply handler is registered, a dispatch panics in two
    cases and no other: on the dereference of a nil BackoffDelay in the
    retry branch, before any call is made; or in an error log, when the
    target URL, or the dead-letter URL in effect, is empty or does not
    parse. *)
Theorem registered_handler_dispatch_panic
        (m : Manager) (handler : CloudEventHandler) (target : Target)
        (event : Event) (h h' : list Call) (p : Panic) :
  dispatchCloudEventToTarget W (RegisterCloudEventHandler m handler) target event h =
    (h', Panicked p) ->
  (p = NilPointerDereference "target.DeliveryOptions.BackoffDelay"
   /\ h' = h
   /\ exists opts, Target_DeliveryOptions target = Some opts /\ BackoffDelay opts = None)
  \/ (p = NilPointerDereference "cloudevents.TargetFromContext(ctx)"
      /\ (TargetFromContext (url_Parse W) (ContextWithTarget (ctx m) (URL target)) = None
          \/ exists url,
               deadLetterGuard target = Some url
               /\ TargetFromContext (url_Parse W) (ContextWithTarget (ctx m) url) = None)).
Proof.
  set (m' := RegisterCloudEventHandler m handler).
  assert (Hh : ceHandler m' = Some handler) by reflexivity.
  assert (Hc : ctx m' = ctx m) by reflexivity.
  unfold dispatchCloudEventToTarget, bind.
  destruct (retryContext W m' target h) as [h1 [ctx1|q]] eqn:Hctx.
  - assert (Ht : TargetFromContext (url_Parse W) ctx1 =
                 TargetFromContext (url_Parse W) (ContextWithTarget (ctx m) (URL target))).
    { apply TargetFromContext_same_target.
      now rewrite (retryContext_target W m' target h h1 ctx1 Hctx). }
    destruct (send W m' ctx1 event h1) as [h2 [[|]|q]] eqn:Hs1.
    + discriminate.
    + unfold deadLetter, bind. rewrite Hc.
      destruct (deadLetterGuard target) as [url|].
      * destruct (send W m' (ContextWithTarget (ctx m) url) event h2)
          as [h3 [[|]|q]] eqn:Hs2.
        -- discriminate.
        -- rewrite logError_run.
           destruct (TargetFromContext (url_Parse W) (ContextWithTarget (ctx m) url))
             eqn:Hdl; [discriminate|].
           intros [= _ <-]. right. split; [reflexivity|]. right. now exists url.
        -- intros [= _ <-].
           destruct (send_panics_with_handler m' handler _ event h2 h3 q Hh Hs2)
             as [-> Hnone].
           right. split; [reflexivity|]. right. now exists url.
      * rewrite logError_run.
        destruct (TargetFromContext (url_Parse W) (ContextWithTarget (ctx m) (URL target)))
          eqn:Hp; [discriminate|].
        intros [= _ <-]. right. split; [reflexivity|]. now left.
    + intros [= _ <-].
      destruct (send_panics_with_handler m' handler ctx1 event h1 h2 q Hh Hs1)
        as [-> Hnone].
      right. split; [reflexivity|]. left. now rewrite <- Ht.
  - intros [= <- <-]. revert Hctx. unfold retryContext. rewrite Hc.
    destruct (retryGuard target) as [[[opts retry] policy]|] eqn:Hg; [|discriminate].
    apply retryGuard_Some in Hg. destruct Hg as (Ho & _).
    destruct (BackoffDelay opts) as [s|] eqn:Hd.
    + unfold bind, ret. destruct (period_Parse W s) as [d [e|]]; [|discriminate].
      rewrite logError_run.
      destruct (TargetFromContext (url_Parse W) (ContextWithTarget (ctx m) (URL target)))
        eqn:Hp; [discriminate|].
      intros [= _ <-]. right. split; [reflexivity|]. now left.
    + intros [= <- <-]. left. split; [reflexivity|]. split; [reflexivity|].
      now exists opts.
Qed.

(** X19: a manager built by [New] and then used through its operations
    keeps the background context it was built with, so the contexts of its
    requests carry no retry policy but the one [dispatchCloudEventToTarget]
    attaches; and when [updateTrigger] leaves the name of a subscriber
    alone, its table stays keyed by the subscribers' own names. *)
Theorem reachable_manager_invariants
        (newHTTP_err newClient_err : option string) (m0 : Manager) (ops : list Op) :
  New newHTTP_err newClient_err = inl m0 ->
  exists m,
    outcome (steps W m0 ops) = Returned m
    /\ ctx m = Background
    /\ ((forall s trg, name (fst (updateTrigger W s trg)) = name s) ->
        keyed (subscribers m)).
Proof.
  intros HNew.
  set (Inv := fun m : Manager =>
                triggers m = [] /\ ctx m = Background
                /\ ((forall s trg, name (fst (updateTrigger W s trg)) = name s) ->
                    keyed (subscribers m))).
  assert (H0 : Inv m0).
  { unfold New in HNew.
    destruct newHTTP_err; [discriminate|]. destruct newClient_err; [discriminate|].
    injection HNew as <-. repeat split. intros _. constructor. }
  clear HNew.
  assert (Hgen : forall ops m h,
             Inv m -> exists h' m', steps W m ops h = (h', Returned m') /\ Inv m').
  { clear. intros ops. induction ops as [|op rest IH]; intros m h Hm; simpl.
    - now exists h, m.
    - unfold bind.
      assert (Hstep : exists h1 m1, step W m op h = (h1, Returned m1) /\ Inv m1).
      { destruct Hm as (Htr & Hctx & Hkeyed).
        destruct op as [c|handler|event]; simpl.
        - destruct (UpdateFromConfig_passes W m c h)
            as (added1 & added2 & subs1 & subs2 & H1 & H2 & ->).
          eexists; eexists. split; [reflexivity|].
          split; [exact Htr|]. split; [exact Hctx|]. simpl. intros Hpres.
          destruct (removalPass_props c _ _ _ _ H1) as (_ & _ & _ & _ & HE & _).
          destruct (updatePass_table W _ _ _ _ H2) as (_ & _ & _ & _ & HK).
          apply (HK Hpres). specialize (Hkeyed Hpres).
          unfold keyed in *. rewrite Forall_forall in *.
          intros entry Hin. apply Hkeyed. now apply HE.
        - exists h, (RegisterCloudEventHandler m handler). split; [reflexivity|].
          now repeat split.
        - exists h, m. unfold bind, DispatchCloudEvent. rewrite Htr. simpl.
          split; [reflexivity|]. now repeat split. }
      destruct Hstep as (h1 & m1 & -> & Hm1). apply IH. exact Hm1. }
  destruct (Hgen ops m0 [] H0) as (h' & m & Heq & _ & Hctx & Hkeyed).
  exists m. unfold outcome, run. rewrite Heq. auto.
Qed.

End Reachable.

Lemma registered_handler_dispatch_panic_witness :
  let broken := mkTarget "" (Some {| Retry := None; BackoffPolicy := None;
                                     BackoffDelay := None;
                                     DeadLetterURL := Some "http://ack" |}) in
  (NilPointerDereference "cloudevents.TargetFromContext(ctx)" =
     NilPointerDereference "target.DeliveryOptions.BackoffDelay"
   /\ [ceClient_Request (mkContext (Some "") None) sample.event] = []
   /\ exists opts, Target_DeliveryOptions broken = Some opts /\ BackoffDelay opts = None)
  \/ (NilPointerDereference "cloudevents.TargetFromContext(ctx)" =
        NilPointerDereference "cloudevents.TargetFromContext(ctx)"
      /\ (TargetFromContext (url_Parse sample.world)
            (ContextWithTarget (ctx sample.manager) (URL broken)) = None
          \/ exists url,
               deadLetterGuard broken = Some url
               /\ TargetFromContext (url_Parse sample.world)
                    (ContextWithTarget (ctx sample.manager) url) = None)).
Proof.
  intros broken.
  exact (registered_handler_dispatch_panic sample.world sample.manager sample.produce
           broken sample.event []
           [ceClient_Request (mkContext (Some "") None) sample.event]
           (NilPointerDereference "cloudevents.TargetFromContext(ctx)") eq_refl).
Defined.

Lemma reachable_manager_invariants_witness :
  let fresh := {| ceHandler := None; triggers := []; subscribers := [];
                  ctx := Background |} in
  exists m,
    outcome (steps sample.world fresh
               [OpUpdateFromConfig (mkConfig [("b", sample.goodTrigger)]);
                OpUpdateFromConfig (mkConfig [("c", sample.goodTrigger)])]) = Returned m
    /\ ctx m = Background
    /\ ((forall s trg, name (fst (updateTrigger sample.world s trg)) = name s) ->
        keyed (subscribers m)).
Proof.
  intros fresh.
  apply (reachable_manager_invariants sample.world None None fresh).
  reflexivity.
Defined.

(** ** The broker supervisor *)

(** X20: when the configuration watcher fails to start, [Start] returns
    the wrapped error without waiting for the group: backend.Start has
    been spawned by then, while the producer is never registered with
    ingest and ingest is never started. *)
Theorem Start_watcher_failure (A : broker.Answers) (err : string) :
  broker.Init_err A = None ->
  broker.cwStart_err A = Some err ->
  outcome (broker.Start A) =
    Returned (Some ("could not start configuration watcher: " ++ err))
  /\ In (broker.grp_Go broker.backend_Start) (trace (broker.Start A))
  /\ ~ In broker.grp_Wait (trace (broker.Start A))
  /\ ~ In (broker.grp_Go broker.ingest_Start) (trace (broker.Start A))
  /\ ~ In (broker.ingest_RegisterCloudEventHandler broker.backend_Produce)
          (trace (broker.Start A)).
Proof.
  destruct A as [init cw wait]. simpl. intros -> ->.
  unfold trace, outcome, run, broker.Start, bind, call, ret; simpl.
  split; [reflexivity|]. split; [auto|].
  repeat split; intros H; repeat (destruct H as [H|H]; [discriminate|]); exact H.
Qed.


Lemma Start_watcher_failure_witness :
  outcome (broker.Start (broker.mkAnswers None (Some "no such file") None)) =
  Returned (Some "could not start configuration watcher: no such file").
Proof.
  apply (Start_watcher_failure (broker.mkAnswers None (Some "no such file") None)
           "no such file"); reflexivity.
Defined.
